(** * go-env: binding struct fields from environment variables

    A shallow embedding of [env.go] and of the few library functions it
    leans on ([strings.Split], [strconv.ParseInt], [os.Expand], the part of
    [reflect] that the walker uses), followed by the properties of the
    binder that the specification states. *)

From Stdlib Require Import ZArith String Ascii List Bool Lia.
From stdpp Require Import base option list gmap strings countable.

Set Warnings "-register-all".

Local Open Scope string_scope.
Local Open Scope Z_scope.
Local Open Scope list_scope.

(* ===================================================================== *)
(** ** reflect: kinds, types and struct fields *)
(* ===================================================================== *)

(** [reflect.Kind]. *)
Inductive Kind : Set :=
| Invalid | Bool
| Int | Int8 | Int16 | Int32 | Int64
| Uint | Uint8 | Uint16 | Uint32 | Uint64 | Uintptr
| Float32 | Float64 | Complex64 | Complex128
| Array | Chan | Func | Interface | Map | Ptr | Slice
| String_ | Struct | UnsafePointer.

#[global] Instance Kind_eq_dec : EqDecision Kind.
Proof. solve_decision. Defined.

Definition Kind_to_nat (k : Kind) : nat :=
  match k with
  | Invalid => 0 | Bool => 1
  | Int => 2 | Int8 => 3 | Int16 => 4 | Int32 => 5 | Int64 => 6
  | Uint => 7 | Uint8 => 8 | Uint16 => 9 | Uint32 => 10 | Uint64 => 11
  | Uintptr => 12
  | Float32 => 13 | Float64 => 14 | Complex64 => 15 | Complex128 => 16
  | Array => 17 | Chan => 18 | Func => 19 | Interface => 20 | Map => 21
  | Ptr => 22 | Slice => 23 | String_ => 24 | Struct => 25
  | UnsafePointer => 26
  end%nat.

Definition Kind_of_nat (n : nat) : Kind :=
  match n with
  | 1 => Bool
  | 2 => Int | 3 => Int8 | 4 => Int16 | 5 => Int32 | 6 => Int64
  | 7 => Uint | 8 => Uint8 | 9 => Uint16 | 10 => Uint32 | 11 => Uint64
  | 12 => Uintptr
  | 13 => Float32 | 14 => Float64 | 15 => Complex64 | 16 => Complex128
  | 17 => Array | 18 => Chan | 19 => Func | 20 => Interface | 21 => Map
  | 22 => Ptr | 23 => Slice | 24 => String_ | 25 => Struct
  | 26 => UnsafePointer
  | _ => Invalid
  end%nat.

Lemma Kind_of_to_nat (k : Kind) : Kind_of_nat (Kind_to_nat k) = k.
Proof. by destruct k. Qed.

#[global] Instance Kind_countable : Countable Kind :=
  inj_countable' Kind_to_nat Kind_of_nat Kind_of_to_nat.

(** A struct tag, already cut into its [key:"value"] pairs. *)
Definition StructTag : Type := list (string * string).

(** [reflect.Type] for the types a configuration struct is built from, and
    [reflect.StructField].  [Basic k] is the predeclared type of kind [k];
    [Named] is a defined type ([type Name underlying]).  [PkgPath] is empty
    for an exported field. *)
Inductive type : Type :=
| Basic (k : Kind)
| Named (name : string) (underlying : type)
| PtrTo (elem : type)
| SliceOf (elem : type)
| StructOf (fields : list StructField)
with StructField : Type :=
| mkStructField (Name PkgPath : string) (Type_ : type) (Tag : StructTag).

Definition Name (sf : StructField) : string :=
  let 'mkStructField n _ _ _ := sf in n.
Definition PkgPath (sf : StructField) : string :=
  let 'mkStructField _ p _ _ := sf in p.
Definition Type_ (sf : StructField) : type :=
  let 'mkStructField _ _ t _ := sf in t.
Definition Tag (sf : StructField) : StructTag :=
  let 'mkStructField _ _ _ t := sf in t.

(** Induction over a type together with the fields of its struct types. *)
Section type_ind.
Variable P : type -> Prop.
Variable Q : StructField -> Prop.
Hypothesis HBasic : forall k, P (Basic k).
Hypothesis HNamed : forall n u, P u -> P (Named n u).
Hypothesis HPtrTo : forall e, P e -> P (PtrTo e).
Hypothesis HSliceOf : forall e, P e -> P (SliceOf e).
Hypothesis HStructOf : forall fs, Forall Q fs -> P (StructOf fs).
Hypothesis HField : forall n p t tg, P t -> Q (mkStructField n p t tg).

Fixpoint type_fields_ind (t : type) : P t :=
  match t with
  | Basic k => HBasic k
  | Named n u => HNamed n u (type_fields_ind u)
  | PtrTo e => HPtrTo e (type_fields_ind e)
  | SliceOf e => HSliceOf e (type_fields_ind e)
  | StructOf fs =>
      HStructOf fs
        ((fix all (l : list StructField) : Forall Q l :=
            match l with
            | [] => Forall_nil Q
            | f :: l' => Forall_cons Q f l' (field_ind f) (all l')
            end) fs)
  end
with field_ind (f : StructField) : Q f :=
  match f with
  | mkStructField n p t tg => HField n p t tg (type_fields_ind t)
  end.
End type_ind.

(** Types are keys of the parser registry: they are countable, through an
    encoding as trees. *)
Definition type_leaf : Type := Kind + string.

Fixpoint type_encode (t : type) : gen_tree type_leaf :=
  match t with
  | Basic k => GenNode 0 [GenLeaf (inl k)]
  | Named n u => GenNode 1 [GenLeaf (inr n); type_encode u]
  | PtrTo e => GenNode 2 [type_encode e]
  | SliceOf e => GenNode 3 [type_encode e]
  | StructOf fs => GenNode 4 (map field_encode fs)
  end
with field_encode (f : StructField) : gen_tree type_leaf :=
  match f with
  | mkStructField n p t tg =>
      GenNode 5
        [GenLeaf (inr n); GenLeaf (inr p); type_encode t;
         GenNode 6 (map (fun kv => GenNode 7 [GenLeaf (inr (fst kv));
                                              GenLeaf (inr (snd kv))]) tg)]
  end.

Definition tag_decode (g : gen_tree type_leaf) : option (string * string) :=
  match g with
  | GenNode 7 [GenLeaf (inr k); GenLeaf (inr v)] => Some (k, v)
  | _ => None
  end.

Fixpoint type_decode (g : gen_tree type_leaf) : option type :=
  match g with
  | GenNode 0 [GenLeaf (inl k)] => Some (Basic k)
  | GenNode 1 [GenLeaf (inr n); u] => Named n <$> type_decode u
  | GenNode 2 [e] => PtrTo <$> type_decode e
  | GenNode 3 [e] => SliceOf <$> type_decode e
  | GenNode 4 fs =>
      StructOf <$>
        mapM (fun f =>
                match f with
                | GenNode 5 [GenLeaf (inr n); GenLeaf (inr p); t; GenNode 6 tg] =>
                    t' ← type_decode t;
                    tg' ← mapM tag_decode tg;
                    Some (mkStructField n p t' tg')
                | _ => None
                end) fs
  | _ => None
  end.

Definition field_decode (f : gen_tree type_leaf) : option StructField :=
  match f with
  | GenNode 5 [GenLeaf (inr n); GenLeaf (inr p); t; GenNode 6 tg] =>
      t' ← type_decode t;
      tg' ← mapM tag_decode tg;
      Some (mkStructField n p t' tg')
  | _ => None
  end.

Lemma tags_decode_encode (tg : StructTag) :
  mapM tag_decode
    (map (fun kv => GenNode 7 [GenLeaf (inr (fst kv)); GenLeaf (inr (snd kv))]) tg)
  = Some tg.
Proof.
  induction tg as [|[k v] tg IH]; [done|].
  cbn [map mapM]. rewrite IH. done.
Qed.

Lemma type_decode_encode (t : type) : type_decode (type_encode t) = Some t.
Proof.
  induction t using type_fields_ind
    with (Q := fun f => field_decode (field_encode f) = Some f).
  - done.
  - cbn. by rewrite IHt.
  - cbn. by rewrite IHt.
  - cbn. by rewrite IHt.
  - cbn. change (StructOf <$> mapM field_decode (map field_encode fs) = Some (StructOf fs)).
    assert (mapM field_decode (map field_encode fs) = Some fs) as ->; [|done].
    induction H as [|f l Hf _ IH]; [done|].
    cbn [map mapM]. rewrite Hf. cbn. rewrite IH. done.
  - cbn. rewrite IHt. cbn. rewrite tags_decode_encode. done.
Qed.

#[global] Instance type_eq_dec : EqDecision type.
Proof.
  intros a b. destruct (decide (type_encode a = type_encode b)) as [E|N].
  - left. apply (f_equal type_decode) in E.
    rewrite !type_decode_encode in E. by injection E.
  - right. intros ->. by apply N.
Defined.

#[global] Instance type_countable : Countable type :=
  inj_countable type_encode type_decode type_decode_encode.

Lemma field_decode_encode (f : StructField) :
  field_decode (field_encode f) = Some f.
Proof.
  destruct f as [n p t tg]. cbn.
  rewrite type_decode_encode. cbn. by rewrite tags_decode_encode.
Qed.

#[global] Instance StructField_eq_dec : EqDecision StructField.
Proof.
  intros a b. destruct (decide (field_encode a = field_encode b)) as [E|N].
  - left. apply (f_equal field_decode) in E.
    rewrite !field_decode_encode in E. by injection E.
  - right. intros ->. by apply N.
Defined.

(** [Type.Kind()], [Type.Elem()] and the fields of a struct type. *)
Fixpoint kindOf (t : type) : Kind :=
  match t with
  | Basic k => k
  | Named _ u => kindOf u
  | PtrTo _ => Ptr
  | SliceOf _ => Slice
  | StructOf _ => Struct
  end.

(** [Elem] is defined by [reflect] on pointer and slice types only (it
    panics elsewhere); on the other types the model returns the type
    itself, and no caller below reaches that case. *)
Fixpoint Elem (t : type) : type :=
  match t with
  | Named _ u => Elem u
  | PtrTo e => e
  | SliceOf e => e
  | _ => t
  end.

Fixpoint fieldsOf (t : type) : list StructField :=
  match t with
  | Named _ u => fieldsOf u
  | StructOf fs => fs
  | _ => []
  end.

(** [StructTag.Get]: the value stored under a key, the empty string when
    the key is not in the tag. *)
Fixpoint Get (tag : StructTag) (key : string) : string :=
  match tag with
  | [] => ""
  | (k, v) :: rest => if String.eqb k key then v else Get rest key
  end.

(* ===================================================================== *)
(** ** Values and errors *)
(* ===================================================================== *)

(** The data behind a [reflect.Value].  Integers of every width are kept
    as [Z] within the range of their kind, floats as their IEEE bit
    pattern.  A non-nil pointer carries its pointee: the structures the
    binder walks are trees reachable from the root pointer.  [VZero k] is
    the zero value of a kind whose values are not described further. *)
Inductive Value : Type :=
| VBool (b : bool)
| VInt (n : Z)
| VFloat (bits : Z)
| VString (s : string)
| VPtr (pointee : option Value)
| VSlice (elems : list Value)
| VStruct (fields : list Value)
| VZero (k : Kind).

(** [reflect.Zero]. *)
Fixpoint Zero (t : type) : Value :=
  match t with
  | Basic k =>
      match k with
      | Bool => VBool false
      | Int | Int8 | Int16 | Int32 | Int64
      | Uint | Uint8 | Uint16 | Uint32 | Uint64 | Uintptr => VInt 0
      | Float32 | Float64 => VFloat 0
      | String_ => VString ""
      | Ptr => VPtr None
      | Slice => VSlice []
      | _ => VZero k
      end
  | Named _ u => Zero u
  | PtrTo _ => VPtr None
  | SliceOf _ => VSlice []
  | StructOf fs => VStruct (map ZeroField fs)
  end
with ZeroField (f : StructField) : Value :=
  match f with
  | mkStructField _ _ t _ => Zero t
  end.

(** [Value.IsNil] on a pointer. *)
Definition IsNil (v : Value) : bool :=
  match v with
  | VPtr None => true
  | _ => false
  end.

(** [strconv.ErrSyntax] and [strconv.ErrRange]. *)
Inductive NumErr : Set := ErrSyntax | ErrRange.

(** The errors of the package, one constructor per place that builds one,
    carrying the arguments of its format string:
    - [ErrNotAStructPtr]: "env: expected a pointer to a Struct";
    - [ErrRequiredNotSet key]: "env: required environment variable "%q" is
      not set";
    - [ErrTagOption opt]: "env: tag option %q not supported";
    - [parseError sf err]: "env: parse error on field "%s" of type "%s": %v";
    - [ErrNoParser sf]: "env: no parser found for field "%s" of type "%s"";
    - [ErrPointSlices name t]: "env: point slices of built-in and aliased
      types are not supported: %s %s";
    - [NumError fn num err]: [*strconv.NumError];
    - [ErrText msg]: [errors.New(msg)], the errors of caller-supplied
      parsers and unmarshalers. *)
Inductive error : Type :=
| ErrNotAStructPtr
| ErrRequiredNotSet (key : string)
| ErrTagOption (opt : string)
| parseError (sf : StructField) (err : error)
| ErrNoParser (sf : StructField)
| ErrPointSlices (name : string) (t : type)
| NumError (Func Num : string) (Err : NumErr)
| ErrText (msg : string).

(** How a call ends: it returns its [error] result ([None] is [nil]), or it
    panics inside [reflect]. *)
Inductive outcome : Type :=
| Return (err : option error)
| Panic (msg : string).

(* ===================================================================== *)
(** ** strings *)
(* ===================================================================== *)

Definition byte (c : ascii) : Z := Z.of_N (N_of_ascii c).

Fixpoint Split_from (sep : string) (skip : nat) (cur s : string) : list string :=
  match s with
  | EmptyString => [cur]
  | String c s' =>
      match skip with
      | S k => Split_from sep k cur s'
      | O =>
          if String.prefix sep s
          then cur :: Split_from sep (String.length sep - 1) "" s'
          else Split_from sep 0 (cur +:+ String c "") s'
      end
  end.

(** [strings.Split]: the substrings between the occurrences of [sep], found
    from left to right and not overlapping.  With an empty separator Go cuts
    the string into its UTF-8 sequences; the model cuts it into bytes, and
    [env.go] never passes one. *)
Definition Split (s sep : string) : list string :=
  if String.eqb sep "" then map (fun c => String c "") (list_ascii_of_string s)
  else Split_from sep 0 "" s.

(** [strings.ToLower] on the ASCII letters; the other bytes are kept.  The
    one use in [env.go] compares the result with "true", and no letter
    outside ASCII has a lower case among t, r, u, e. *)
Definition lowerByte (c : ascii) : ascii :=
  if (65 <=? byte c) && (byte c <=? 90)
  then ascii_of_N (N_of_ascii c + 32)
  else c.

Fixpoint ToLower (s : string) : string :=
  match s with
  | EmptyString => EmptyString
  | String c s' => String (lowerByte c) (ToLower s')
  end.

(* ===================================================================== *)
(** ** strconv *)
(* ===================================================================== *)

Definition maxUint64 : Z := 2 ^ 64 - 1.
Definition uint64 (z : Z) : Z := z mod 2 ^ 64.
Definition wrapU (bits z : Z) : Z := z mod 2 ^ bits.
Definition wrapS (bits z : Z) : Z :=
  (z + 2 ^ (bits - 1)) mod 2 ^ bits - 2 ^ (bits - 1).

(** [strconv.ParseBool]. *)
Definition ParseBool (str : string) : bool * option error :=
  if existsb (String.eqb str) ["1"; "t"; "T"; "true"; "TRUE"; "True"]
  then (true, None)
  else if existsb (String.eqb str) ["0"; "f"; "F"; "false"; "FALSE"; "False"]
  then (false, None)
  else (false, Some (NumError "ParseBool" str ErrSyntax)).

(** [lower(c)] of [strconv]: [c | ('x' - 'X')]. *)
Definition lower (c : Z) : Z := Z.lor c 32.

(** The digit a byte stands for in [ParseUint], when it stands for one. *)
Definition digitOf (c : ascii) : option Z :=
  let c := byte c in
  if (48 <=? c) && (c <=? 57) then Some (c - 48)
  else if (97 <=? lower c) && (lower c <=? 122) then Some (lower c - 97 + 10)
  else None.

(** The loop of [ParseUint] over the bytes of the string, [n] being the
    [uint64] accumulated so far. *)
Fixpoint ParseUint_loop (base maxVal cutoff : Z) (n : Z) (s : string)
  : Z * option NumErr :=
  match s with
  | EmptyString => (n, None)
  | String c s' =>
      match digitOf c with
      | None => (0, Some ErrSyntax)
      | Some d =>
          if base <=? d then (0, Some ErrSyntax)
          else if cutoff <=? n then (maxVal, Some ErrRange)
          else
            let n := uint64 (n * base) in
            let n1 := uint64 (n + d) in
            if (n1 <? n) || (maxVal <? n1) then (maxVal, Some ErrRange)
            else ParseUint_loop base maxVal cutoff n1 s'
      end
  end.

(** [strconv.ParseUint] for an explicit base between 2 and 36 and a bit
    size between 1 and 64, which is how [env.go] calls it. *)
Definition ParseUint (s : string) (base bitSize : Z) : Z * option error :=
  if String.eqb s "" then (0, Some (NumError "ParseUint" s ErrSyntax))
  else
    let cutoff := maxUint64 / base + 1 in
    let maxVal := uint64 (uint64 (2 ^ bitSize) - 1) in
    match ParseUint_loop base maxVal cutoff 0 s with
    | (n, None) => (n, None)
    | (n, Some e) => (n, Some (NumError "ParseUint" s e))
    end.

(** [strconv.ParseInt], under the same restriction. *)
Definition ParseInt (s : string) (base bitSize : Z) : Z * option error :=
  match s with
  | EmptyString => (0, Some (NumError "ParseInt" s ErrSyntax))
  | String c rest =>
      let s0 := s in
      let '(neg, s) :=
        if Ascii.eqb c "+" then (false, rest)
        else if Ascii.eqb c "-" then (true, rest)
        else (false, s) in
      let '(un, err) := ParseUint s base bitSize in
      match err with
      | Some (NumError _ _ ErrSyntax) =>
          (0, Some (NumError "ParseInt" s0 ErrSyntax))
      | _ =>
          let cutoff := uint64 (2 ^ (bitSize - 1)) in
          if negb neg && (cutoff <=? un)
          then (wrapS 64 (cutoff - 1), Some (NumError "ParseInt" s0 ErrRange))
          else if neg && (cutoff <? un)
          then (wrapS 64 (- wrapS 64 cutoff), Some (NumError "ParseInt" s0 ErrRange))
          else
            let n := wrapS 64 un in
            let n := if neg then wrapS 64 (- n) else n in
            (n, None)
      end
  end.

(* ===================================================================== *)
(** ** os: the environment and variable expansion *)
(* ===================================================================== *)

Fixpoint dropBytes (n : nat) (s : string) : string :=
  match n, s with
  | S k, String _ s' => dropBytes k s'
  | _, _ => s
  end.

(** [isShellSpecialVar] and [isAlphaNum] of package [os]. *)
Definition isShellSpecialVar (c : ascii) : bool :=
  existsb (Ascii.eqb c)
    ["*"; "#"; "$"; "@"; "!"; "?"; "-";
     "0"; "1"; "2"; "3"; "4"; "5"; "6"; "7"; "8"; "9"]%char.

Definition isAlphaNum (c : ascii) : bool :=
  Ascii.eqb c "_"
  || ((48 <=? byte c) && (byte c <=? 57))
  || ((97 <=? byte c) && (byte c <=? 122))
  || ((65 <=? byte c) && (byte c <=? 90)).

(** The scan of [getShellName] to the closing brace: [s] is what follows
    index [i - 1] and [name] what lies between the brace and index [i]. *)
Fixpoint scanBrace (i : nat) (name s : string) : string * nat :=
  match s with
  | EmptyString => ("", 1%nat)
  | String c s' =>
      if Ascii.eqb c "}"
      then (if Nat.eqb i 1 then ("", 2%nat) else (name, S i))
      else scanBrace (S i) (name +:+ String c "") s'
  end.

Fixpoint scanAlphaNum (s : string) : string * nat :=
  match s with
  | EmptyString => ("", 0%nat)
  | String c s' =>
      if isAlphaNum c
      then let '(name, i) := scanAlphaNum s' in (String c name, S i)
      else ("", 0%nat)
  end.

(** [getShellName]: the name that starts [s] and the number of bytes it
    takes up. *)
Definition getShellName (s : string) : string * nat :=
  match s with
  | EmptyString => ("", 0%nat)
  | String c rest =>
      if Ascii.eqb c "{" then
        match rest with
        | String c1 (String c2 _) =>
            if isShellSpecialVar c1 && Ascii.eqb c2 "}"
            then (String c1 "", 3%nat)
            else scanBrace 1 "" rest
        | _ => scanBrace 1 "" rest
        end
      else if isShellSpecialVar c then (String c "", 1%nat)
      else scanAlphaNum s
  end.

Fixpoint Expand_from (fuel : nat) (mapping : string -> string) (s : string)
  : string :=
  match fuel with
  | O => s
  | S fuel =>
      match s with
      | EmptyString => EmptyString
      | String c rest =>
          if Ascii.eqb c "$" && negb (String.eqb rest "") then
            let '(name, w) := getShellName rest in
            let out :=
              if String.eqb name ""
              then (if Nat.ltb 0 w then "" else "$")
              else mapping name in
            out +:+ Expand_from fuel mapping (dropBytes w rest)
          else String c (Expand_from fuel mapping rest)
      end
  end.

(** [os.Expand]: [${var}] and [$var] replaced through [mapping]. *)
Definition Expand (s : string) (mapping : string -> string) : string :=
  Expand_from (String.length s) mapping s.

(* ===================================================================== *)
(** ** Package env *)
(* ===================================================================== *)

(** [ParserFunc]: the converted value and the error, as Go returns them. *)
Abbreviation ParserFunc := (string -> Value * option error).

(** A method [UnmarshalText] with a pointer receiver: from the value behind
    the receiver and the text, the value left behind it and the error. *)
Abbreviation Unmarshaler := (Value -> string -> Value * option error).

(** The calls made to [OnEnvVarSet]. *)
Definition calls : Type := list (StructField * string).

Section Env.

(** The process environment, read by [os.LookupEnv]. *)
Variable environ : gmap string string.

(** [strconv.IntSize], the width of [int] and [uint]. *)
Variable IntSize : Z.

(** Floating point is not described: [strconv.ParseFloat] yields the bits
    of the parsed number, [float32] those of its conversion. *)
Variable ParseFloat : string -> Z -> Z * option error.
Variable float32 : Z -> Z.

(** The types [T] whose pointer type [*T] has a method [UnmarshalText]
    declared for it (or promoted to it), with that method. *)
Variable UnmarshalText : type -> option Unmarshaler.

(** Package [parsers]: the types and functions of the two baseline
    entries of the registry. *)
Variable URLType DurationType : type.
Variable URLFunc DurationFunc : ParserFunc.

(** Whether the callback [OnEnvVarSet] is set (not nil). *)
Variable OnEnvVarSet : bool.

Definition LookupEnv (key : string) : option string := environ !! key.

Definition Getenv (key : string) : string := default "" (LookupEnv key).

Definition ExpandEnv (s : string) : string := Expand s Getenv.

(** Whether [*t] implements [encoding.TextUnmarshaler]: predeclared
    types, pointer types and slice types have no methods, so a pointer to
    one of them has none either. *)
Definition textUnmarshaler (t : type) : option Unmarshaler :=
  match t with
  | Named _ _ | StructOf _ => UnmarshalText t
  | _ => None
  end.

Definition defaultBuiltInParsers (k : Kind) : option ParserFunc :=
  match k with
  | Bool => Some (fun v => let '(b, err) := ParseBool v in (VBool b, err))
  | String_ => Some (fun v => (VString v, None))
  | Int => Some (fun v =>
      let '(i, err) := ParseInt v 10 32 in (VInt (wrapS IntSize i), err))
  | Int16 => Some (fun v =>
      let '(i, err) := ParseInt v 10 16 in (VInt (wrapS 16 i), err))
  | Int32 => Some (fun v =>
      let '(i, err) := ParseInt v 10 32 in (VInt (wrapS 32 i), err))
  | Int64 => Some (fun v =>
      let '(i, err) := ParseInt v 10 64 in (VInt i, err))
  | Int8 => Some (fun v =>
      let '(i, err) := ParseInt v 10 8 in (VInt (wrapS 8 i), err))
  | Uint => Some (fun v =>
      let '(i, err) := ParseUint v 10 32 in (VInt (wrapU IntSize i), err))
  | Uint16 => Some (fun v =>
      let '(i, err) := ParseUint v 10 16 in (VInt (wrapU 16 i), err))
  | Uint32 => Some (fun v =>
      let '(i, err) := ParseUint v 10 32 in (VInt (wrapU 32 i), err))
  | Uint64 => Some (fun v =>
      let '(i, err) := ParseUint v 10 64 in (VInt i, err))
  | Uint8 => Some (fun v =>
      let '(i, err) := ParseUint v 10 8 in (VInt (wrapU 8 i), err))
  | Float64 => Some (fun v =>
      let '(f, err) := ParseFloat v 64 in (VFloat f, err))
  | Float32 => Some (fun v =>
      let '(f, err) := ParseFloat v 32 in (VFloat (float32 f), err))
  | _ => None
  end.

Definition defaultCustomParsers : gmap type ParserFunc :=
  <[DurationType := DurationFunc]> (<[URLType := URLFunc]> ∅).

(** [Value.Convert] to a type of the value's own representation, which is
    what the binder asks for: an integer is brought into the range of the
    target kind, any other value is kept.  A [ParserFunc] is taken to
    return a value of the type it is registered for; [reflect] panics on
    a value that cannot be converted or assigned, which is outside this
    model. *)
Definition Convert (v : Value) (t : type) : Value :=
  match v with
  | VInt n =>
      match kindOf t with
      | Int => VInt (wrapS IntSize n)
      | Int8 => VInt (wrapS 8 n)
      | Int16 => VInt (wrapS 16 n)
      | Int32 => VInt (wrapS 32 n)
      | Int64 => VInt (wrapS 64 n)
      | Uint => VInt (wrapU IntSize n)
      | Uint8 => VInt (wrapU 8 n)
      | Uint16 => VInt (wrapU 16 n)
      | Uint32 => VInt (wrapU 32 n)
      | Uint64 => VInt (wrapU 64 n)
      | _ => v
      end
  | _ => v
  end.

(** [Value.Set] on a field: [ro] tells that the field was reached through
    an unexported field, and then [reflect] panics. *)
Definition Set_ (ro : bool) (field x : Value) : Value * outcome :=
  if ro
  then (field, Panic "reflect.Value.Set using value obtained using unexported field")
  else (x, Return None).

Definition newParseError (sf : StructField) (err : option error)
  : option error :=
  match err with
  | None => None
  | Some e => Some (parseError sf e)
  end.

Definition newNoParserError (sf : StructField) : error := ErrNoParser sf.

Definition getOr (key defaultValue : string) : string :=
  match LookupEnv key with
  | Some value => value
  | None => defaultValue
  end.

Definition getRequired (key : string) : string * option error :=
  match LookupEnv key with
  | Some value => (value, None)
  | None => ("", Some (ErrRequiredNotSet key))
  end.

(** Split the [env] tag's key into the expected key and the options. *)
Definition parseKeyForOption (key : string) : string * list string :=
  match Split key "," with
  | [] => ("", [])
  | k :: opts => (k, opts)
  end.

(** The body of the loop over the options in [get]. *)
Definition applyOption (key : string) (acc : string * option error)
  (opt : string) : string * option error :=
  if String.eqb opt "" then acc
  else if String.eqb opt "required" then getRequired key
  else (fst acc, Some (ErrTagOption opt)).

Definition get (field : StructField) : string * option error :=
  let '(key, opts) := parseKeyForOption (Get (Tag field) "env") in
  let defaultValue := Get (Tag field) "envDefault" in
  let val := getOr key defaultValue in
  let expandVar := Get (Tag field) "envExpand" in
  let val :=
    if String.eqb (ToLower expandVar) "true" then ExpandEnv val else val in
  fold_left (applyOption key) opts (val, None).

Definition handleTextUnmarshaler (ro : bool) (field : Value)
  (value : string) (sf : StructField) : Value * outcome :=
  if decide (kindOf (Type_ sf) = Ptr) then
    let '(field, out) :=
      if IsNil field
      then Set_ ro field (VPtr (Some (Zero (Elem (Type_ sf)))))
      else (field, Return None) in
    match out with
    | Panic msg => (field, Panic msg)
    | Return _ =>
        if ro
        then (field, Panic "reflect.Value.Interface: cannot return value obtained from unexported field or method")
        else
          match (match Type_ sf with
                 | PtrTo t => textUnmarshaler t
                 | _ => None
                 end), field with
          | Some UnmarshalText_, VPtr (Some pointee) =>
              let '(pointee, err) := UnmarshalText_ pointee value in
              (VPtr (Some pointee), Return (newParseError sf err))
          | _, _ => (field, Return (Some (newNoParserError sf)))
          end
    end
  else
    (* the field of a struct reached through a pointer can be addressed:
       [field = field.Addr()] *)
    if ro
    then (field, Panic "reflect.Value.Interface: cannot return value obtained from unexported field or method")
    else
      match textUnmarshaler (Type_ sf) with
      | Some UnmarshalText_ =>
          let '(field, err) := UnmarshalText_ field value in
          (field, Return (newParseError sf err))
      | None => (field, Return (Some (newNoParserError sf)))
      end.

(** The loop of [parseTextUnmarshalers] over the parts: the elements of
    the new slice, in order, or the error that ends the loop. *)
Fixpoint unmarshalParts (elemType : type) (sf : StructField)
  (data : list string) : option (list Value * option error) :=
  match data with
  | [] => Some ([], None)
  | v :: rest =>
      let isPtr := bool_decide (kindOf elemType = Ptr) in
      match textUnmarshaler (if isPtr then Elem elemType else elemType) with
      | None => None
      | Some UnmarshalText_ =>
          let '(sv, err) :=
            UnmarshalText_
              (Zero (if isPtr then Elem elemType else elemType)) v in
          match err with
          | Some e => Some ([], Some (parseError sf e))
          | None =>
              match unmarshalParts elemType sf rest with
              | Some (elems, err) =>
                  Some ((if isPtr then VPtr (Some sv) else sv) :: elems, err)
              | None => None
              end
          end
      end
  end.

Definition parseTextUnmarshalers (ro : bool) (field : Value)
  (data : list string) (sf : StructField) : Value * outcome :=
  let elemType := Elem (Type_ sf) in
  match unmarshalParts elemType sf data with
  | None =>
      (field, Panic "interface conversion: not an encoding.TextUnmarshaler")
  | Some (_, Some e) => (field, Return (Some e))
  | Some (slice, None) => Set_ ro field (VSlice slice)
  end.

(** The loop of [handleSlice] over the parts, [result] being the slice
    built so far. *)
Fixpoint convertParts (parserFunc : ParserFunc) (elemType : type)
  (sf : StructField) (parts : list string) (result : list Value)
  : list Value * option error :=
  match parts with
  | [] => (result, None)
  | part :: rest =>
      let '(r, err) := parserFunc part in
      match err with
      | Some e => (result, newParseError sf (Some e))
      | None =>
          let v := Convert r elemType in
          if decide (kindOf (Elem (Type_ sf)) = Ptr)
          then (result, Some (ErrPointSlices (Name sf) (Type_ sf)))
          else convertParts parserFunc elemType sf rest (result ++ [v])
      end
  end.

Definition handleSlice (ro : bool) (field : Value) (value : string)
  (sf : StructField) (funcMap : gmap type ParserFunc) : Value * outcome :=
  let separator := Get (Tag sf) "envSeparator" in
  let separator := if String.eqb separator "" then "," else separator in
  let parts := Split value separator in
  let elemType := Elem (Type_ sf) in
  let elemType :=
    if decide (kindOf elemType = Ptr) then Elem elemType else elemType in
  match textUnmarshaler elemType with
  | Some _ => parseTextUnmarshalers ro field parts sf
  | None =>
      match
        match funcMap !! elemType with
        | Some parserFunc => Some parserFunc
        | None => defaultBuiltInParsers (kindOf elemType)
        end
      with
      | None => (field, Return (Some (newNoParserError sf)))
      | Some parserFunc =>
          match convertParts parserFunc elemType sf parts [] with
          | (_, Some e) => (field, Return (Some e))
          | (result, None) => Set_ ro field (VSlice result)
          end
      end
  end.

Definition set (ro : bool) (field : Value) (sf : StructField)
  (value : string) (funcMap : gmap type ParserFunc) : Value * outcome :=
  if decide (kindOf (Type_ sf) = Slice)
  then handleSlice ro field value sf funcMap
  else
    match funcMap !! Type_ sf with
    | Some parserFunc =>
        let '(val, err) := parserFunc value in
        match err with
        | Some e => (field, Return (newParseError sf (Some e)))
        | None => Set_ ro field val
        end
    | None =>
        match defaultBuiltInParsers (kindOf (Type_ sf)) with
        | Some parserFunc =>
            let '(val, err) := parserFunc value in
            match err with
            | Some e => (field, Return (newParseError sf (Some e)))
            | None => Set_ ro field (Convert val (Type_ sf))
            end
        | None => handleTextUnmarshaler ro field value sf
        end
    end.

(** The fold of [ParseWithFuncs] over the caller's map, writing each of
    its entries over the baseline ones. *)
Definition mergeParsers (funcMap : gmap type ParserFunc)
  : gmap type ParserFunc :=
  map_fold (fun k v parsers => <[k := v]> parsers) defaultCustomParsers funcMap.

(** What a walk leaves: the value walked, as it is afterwards, the calls
    made to [OnEnvVarSet], and how the walk ended. *)
Definition walked : Type := Value * calls * outcome.

(** The walker, for a given way [doParse] of walking a struct: [doParse]
    and [ParseWithFuncs] call each other, and the recursion is tied
    below. *)
Section Walker.

Variable doParse :
  bool -> type -> Value -> gmap type ParserFunc -> walked.

(** The argument is an interface value: a type and the data. *)
Definition ParseWithFuncs_ (t : type) (v : Value)
  (funcMap : gmap type ParserFunc) : walked :=
  if decide (kindOf t = Ptr) then
    match v with
    | VPtr (Some ref) =>
        if decide (kindOf (Elem t) = Struct) then
          let parsers := mergeParsers funcMap in
          let '(ref, log, out) := doParse false (Elem t) ref parsers in
          (VPtr (Some ref), log, out)
        else (v, [], Return (Some ErrNotAStructPtr))
    | _ =>
        (* [Elem] of a nil pointer is the zero Value, of kind Invalid *)
        (v, [], Return (Some ErrNotAStructPtr))
    end
  else (v, [], Return (Some ErrNotAStructPtr)).

Definition Parse_ (t : type) (v : Value) : walked :=
  ParseWithFuncs_ t v ∅.

(** The body of the loop of [doParse], for the field [refField] that
    [refTypeField] describes; [ro] tells that the struct itself was
    reached through an unexported field. *)
Definition doParseField (ro : bool) (funcMap : gmap type ParserFunc)
  (refTypeField : StructField) (refField : Value) : walked :=
  let ro := ro || negb (String.eqb (PkgPath refTypeField) "") in
  if bool_decide (Ptr = kindOf (Type_ refTypeField))
     && negb (IsNil refField) && negb ro
  then Parse_ (Type_ refTypeField) refField
  else
    let '(value, err) := get refTypeField in
    match err with
    | Some e => (refField, [], Return (Some e))
    | None =>
        if String.eqb value "" then
          if decide (Struct = kindOf (Type_ refTypeField))
          then doParse ro (Type_ refTypeField) refField funcMap
          else (refField, [], Return None)
        else
          match set ro refField refTypeField value funcMap with
          | (refField, Return None) =>
              (refField,
               if OnEnvVarSet then [(refTypeField, value)] else [],
               Return None)
          | (refField, out) => (refField, [], out)
          end
    end.

End Walker.

(** The loop of [doParse] over the fields, in declaration order: it stops
    at the first field that does not end with a nil error. *)
Section Loop.

Variable body : StructField -> Value -> walked.

Fixpoint fieldsLoop (fs : list StructField) (vs : list Value)
  {struct vs} : list Value * calls * outcome :=
  match fs, vs with
  | refTypeField :: fs', refField :: vs' =>
      match body refTypeField refField with
      | (refField, log, Return None) =>
          let '(vs', log', out) := fieldsLoop fs' vs' in
          (refField :: vs', log ++ log', out)
      | (refField, log, out) => (refField :: vs', log, out)
      end
  | _, _ => (vs, [], Return None)
  end.

End Loop.

Fixpoint doParse (ro : bool) (refType : type) (ref : Value)
  (funcMap : gmap type ParserFunc) {struct ref} : walked :=
  match ref with
  | VStruct fields =>
      let '(fields, log, out) :=
        fieldsLoop (doParseField doParse ro funcMap) (fieldsOf refType) fields in
      (VStruct fields, log, out)
  | _ => (ref, [], Panic "reflect: NumField of non-struct type")
  end.

(** [ParseWithFuncs] and [Parse]; the interface value is a pair of a type
    and the data. *)
Definition ParseWithFuncs (v : type * Value)
  (funcMap : gmap type ParserFunc) : walked :=
  ParseWithFuncs_ doParse (fst v) (snd v) funcMap.

Definition Parse (v : type * Value) : walked :=
  ParseWithFuncs v ∅.

(* ===================================================================== *)
(** *** Vocabulary of the statements *)
(* ===================================================================== *)

(** An option that [get] knows: the empty one and "required". *)
Definition supported (opt : string) : Prop := opt = "" \/ opt = "required".

(** A field is resolved through its annotation unless it is a pointer
    that is not nil and can be set; [ro] is the flag of the struct it
    belongs to. *)
Definition resolved (ro : bool) (sf : StructField) (v : Value) : Prop :=
  kindOf (Type_ sf) <> Ptr \/ IsNil v = true \/ ro = true \/ PkgPath sf <> "".

(** The parser [handleSlice] finds for an element type: the entry of the
    registry, else the built-in one of the kind. *)
Definition elemParser (funcMap : gmap type ParserFunc) (elemType : type)
  : option ParserFunc :=
  match funcMap !! elemType with
  | Some parserFunc => Some parserFunc
  | None => defaultBuiltInParsers (kindOf elemType)
  end.

(** The element type of a slice field with one level of pointer taken
    off. *)
Definition baseElem (sf : StructField) : type :=
  if decide (kindOf (Elem (Type_ sf)) = Ptr)
  then Elem (Elem (Type_ sf)) else Elem (Type_ sf).

(** [elem] is what the part [part] of the string becomes in the slice of
    field [sf]: unmarshalled into a fresh element when the element type
    has [UnmarshalText], converted by the parser of the element type
    otherwise. *)
Definition sliceElem (sf : StructField) (funcMap : gmap type ParserFunc)
  (part : string) (elem : Value) : Prop :=
  match textUnmarshaler (baseElem sf) with
  | Some UnmarshalText_ =>
      exists sv, UnmarshalText_ (Zero (baseElem sf)) part = (sv, None)
        /\ elem = if decide (kindOf (Elem (Type_ sf)) = Ptr)
                  then VPtr (Some sv) else sv
  | None =>
      exists parserFunc r, elemParser funcMap (baseElem sf) = Some parserFunc
        /\ parserFunc part = (r, None)
        /\ elem = Convert r (baseElem sf)
  end.

(** A decimal digit. *)
Definition isDigit (c : ascii) : bool := (48 <=? byte c) && (byte c <=? 57).

(** The number a string of decimal digits writes, [acc] being the number
    of the digits already read. *)
Fixpoint decimalFrom (acc : Z) (s : string) : option Z :=
  match s with
  | EmptyString => Some acc
  | String c s' =>
      if isDigit c then decimalFrom (10 * acc + (byte c - 48)) s' else None
  end.

(** The numeric value of a string made of decimal digits, at least one. *)
Definition decimal (s : string) : option Z :=
  if String.eqb s "" then None else decimalFrom 0 s.

(* =================================================================== *)
(** *** The key resolver *)
(* =================================================================== *)

Lemma applyOption_empty key acc : applyOption key acc "" = acc.
Proof. reflexivity. Qed.

Lemma applyOption_required key acc :
  applyOption key acc "required" = getRequired key.
Proof. reflexivity. Qed.

Lemma applyOption_other key acc opt :
  opt <> "" -> opt <> "required" ->
  applyOption key acc opt = (fst acc, Some (ErrTagOption opt)).
Proof.
  intros H1 H2. unfold applyOption.
  destruct (String.eqb_spec opt ""); [done|].
  destruct (String.eqb_spec opt "required"); done.
Qed.

Lemma applyOption_supported key acc opt :
  supported opt -> applyOption key acc opt = acc \/ applyOption key acc opt = getRequired key.
Proof. intros [-> | ->]; [left | right]; reflexivity. Qed.

(** Once the value is the one of the environment, later options keep
    it. *)
Lemma options_keep_value key raw opts acc :
  LookupEnv key = Some raw -> fst acc = raw ->
  fst (fold_left (applyOption key) opts acc) = raw.
Proof.
  intros Hk. revert acc. induction opts as [|opt opts IH]; intros acc Hacc.
  - exact Hacc.
  - cbn [fold_left]. apply IH. unfold applyOption, getRequired.
    destruct (String.eqb opt ""); [done|].
    destruct (String.eqb opt "required"); [by rewrite Hk | done].
Qed.

Lemma options_required_value key raw opts acc :
  LookupEnv key = Some raw -> In "required" opts ->
  fst (fold_left (applyOption key) opts acc) = raw.
Proof.
  intros Hk. revert acc. induction opts as [|opt opts IH]; intros acc Hin.
  - destruct Hin.
  - cbn [fold_left]. destruct Hin as [-> | Hin].
    + apply options_keep_value; [done|].
      rewrite applyOption_required. unfold getRequired. by rewrite Hk.
    + by apply IH.
Qed.

Lemma options_supported_from_required key opts :
  Forall supported opts ->
  fold_left (applyOption key) opts (getRequired key) = getRequired key.
Proof.
  induction 1 as [|opt opts Hs _ IH]; [done|].
  cbn [fold_left].
  destruct (applyOption_supported key (getRequired key) opt Hs) as [-> | ->];
    exact IH.
Qed.

Lemma options_supported_required key opts acc :
  Forall supported opts -> In "required" opts ->
  fold_left (applyOption key) opts acc = getRequired key.
Proof.
  intros Hall. revert acc. induction Hall as [|opt opts Hs Hall IH];
    intros acc Hin.
  - destruct Hin.
  - cbn [fold_left]. destruct Hin as [-> | Hin].
    + rewrite applyOption_required. by apply options_supported_from_required.
    + by apply IH.
Qed.

(** With supported options only, "required" among them, and the key
    absent, [get] returns the error that names the key, whatever the
    default and the expansion. *)
Lemma get_required_absent sf key opts :
  parseKeyForOption (Get (Tag sf) "env") = (key, opts) ->
  Forall supported opts -> In "required" opts ->
  LookupEnv key = None ->
  get sf = ("", Some (ErrRequiredNotSet key)).
Proof.
  intros Hp Hall Hin Hk. unfold get. rewrite Hp.
  rewrite options_supported_required by done.
  unfold getRequired. by rewrite Hk.
Qed.

(** An error raised for an option is lost when "required" comes after it
    and the key is present: the loop goes on and the later option assigns
    a nil error. *)
Lemma later_required_clears_error sf key before opt after raw :
  parseKeyForOption (Get (Tag sf) "env") = (key, before ++ opt :: after) ->
  Forall supported after -> In "required" after ->
  LookupEnv key = Some raw ->
  get sf = (raw, None).
Proof.
  intros Hp Hall Hin Hk. unfold get. rewrite Hp.
  rewrite fold_left_app. cbn [fold_left].
  rewrite options_supported_required by done.
  unfold getRequired. by rewrite Hk.
Qed.

(* =================================================================== *)
(** *** The walker *)
(* =================================================================== *)

Lemma doParse_struct ro refType fields funcMap :
  doParse ro refType (VStruct fields) funcMap =
  let '(fields', log, out) :=
    fieldsLoop (doParseField doParse ro funcMap) (fieldsOf refType) fields in
  (VStruct fields', log, out).
Proof. reflexivity. Qed.

(** The loop over a prefix that ends well goes on with what follows. *)
Lemma fieldsLoop_app body pre vpre vpre' log fs vs :
  length vpre = length pre ->
  fieldsLoop body pre vpre = (vpre', log, Return None) ->
  fieldsLoop body (pre ++ fs) (vpre ++ vs) =
  let '(vs', log', out) := fieldsLoop body fs vs in
  (vpre' ++ vs', log ++ log', out).
Proof.
  revert vpre vpre' log.
  induction pre as [|sf pre IH]; intros [|v vpre] vpre' log Hlen Hpre;
    try discriminate.
  - cbn in Hpre. injection Hpre as <- <-.
    cbn [app]. by destruct (fieldsLoop body fs vs) as [[? ?] ?].
  - cbn [fieldsLoop] in Hpre. cbn [app fieldsLoop].
    destruct (body sf v) as [[v' l] [[e|]|msg]]; try discriminate.
    destruct (fieldsLoop body pre vpre) as [[w l'] out] eqn:E.
    injection Hpre as <- <- ->.
    rewrite (IH vpre w l'); [|by injection Hlen|done].
    destruct (fieldsLoop body fs vs) as [[vs' l''] out'].
    cbn [app]. by rewrite app_assoc.
Qed.

(** A field that does not end with a nil error ends the loop, the fields
    after it untouched. *)
Lemma fieldsLoop_stop body sf v v' log out fs vs :
  body sf v = (v', log, out) -> out <> Return None ->
  fieldsLoop body (sf :: fs) (v :: vs) = (v' :: vs, log, out).
Proof.
  intros Hb Hout. cbn [fieldsLoop]. rewrite Hb.
  destruct out as [[e|]|msg]; done.
Qed.

(** The walk of a struct whose earlier fields end well and whose next
    field does not: the error is the one of that field. *)
Lemma doParse_first_failure ro t funcMap pre sf post vpre v vpost vpre' log
  v' log' out :
  fieldsOf t = pre ++ sf :: post ->
  length vpre = length pre ->
  doParse ro (StructOf pre) (VStruct vpre) funcMap
    = (VStruct vpre', log, Return None) ->
  doParseField doParse ro funcMap sf v = (v', log', out) ->
  out <> Return None ->
  doParse ro t (VStruct (vpre ++ v :: vpost)) funcMap
    = (VStruct (vpre' ++ v' :: vpost), log ++ log', out).
Proof.
  intros Hf Hlen Hpre Hb Hout.
  rewrite doParse_struct in Hpre. cbn [fieldsOf] in Hpre.
  destruct (fieldsLoop (doParseField doParse ro funcMap) pre vpre)
    as [[w l] o] eqn:E.
  injection Hpre as -> -> ->.
  rewrite doParse_struct, Hf.
  rewrite (fieldsLoop_app _ pre vpre vpre' log) by done.
  by rewrite (fieldsLoop_stop _ sf v v' log' out).
Qed.

Lemma ParseWithFuncs_struct t ref funcMap :
  kindOf t = Ptr -> kindOf (Elem t) = Struct ->
  ParseWithFuncs (t, VPtr (Some ref)) funcMap =
  let '(ref', log, out) := doParse false (Elem t) ref (mergeParsers funcMap) in
  (VPtr (Some ref'), log, out).
Proof.
  intros Hp Hs. unfold ParseWithFuncs, ParseWithFuncs_. cbn [fst snd].
  destruct (decide (kindOf t = Ptr)); [|done].
  destruct (decide (kindOf (Elem t) = Struct)); done.
Qed.

(** The registry the walk runs with: the caller's entries, and the
    baseline ones for the types the caller has no entry for. *)
Lemma mergeParsers_union funcMap :
  mergeParsers funcMap = funcMap ∪ defaultCustomParsers.
Proof.
  unfold mergeParsers.
  apply (map_fold_weak_ind
           (fun r (m : gmap type ParserFunc) => r = m ∪ defaultCustomParsers)).
  - by rewrite (left_id_L ∅ (∪)).
  - intros i x m r _ ->. by rewrite insert_union_l.
Qed.

Lemma mergeParsers_lookup funcMap t :
  mergeParsers funcMap !! t =
  match funcMap !! t with
  | Some f => Some f
  | None => defaultCustomParsers !! t
  end.
Proof.
  rewrite mergeParsers_union, lookup_union.
  destruct (funcMap !! t), (defaultCustomParsers !! t); done.
Qed.

Lemma resolved_guard ro sf v :
  resolved ro sf v ->
  bool_decide (Ptr = kindOf (Type_ sf)) && negb (IsNil v)
    && negb (ro || negb (String.eqb (PkgPath sf) "")) = false.
Proof.
  intros [H | [H | [H | H]]].
  - rewrite bool_decide_eq_false_2; [done | congruence].
  - rewrite H. by rewrite andb_false_r.
  - rewrite H. by rewrite andb_false_r.
  - destruct (String.eqb_spec (PkgPath sf) ""); [done|].
    by rewrite orb_true_r, andb_false_r.
Qed.

Lemma doParseField_resolved ro funcMap sf v :
  resolved ro sf v ->
  doParseField doParse ro funcMap sf v =
  let ro' := ro || negb (String.eqb (PkgPath sf) "") in
  let '(value, err) := get sf in
  match err with
  | Some e => (v, [], Return (Some e))
  | None =>
      if String.eqb value "" then
        if decide (Struct = kindOf (Type_ sf))
        then doParse ro' (Type_ sf) v funcMap
        else (v, [], Return None)
      else
        match set ro' v sf value funcMap with
        | (v', Return None) =>
            (v', if OnEnvVarSet then [(sf, value)] else [], Return None)
        | (v', out) => (v', [], out)
        end
  end.
Proof.
  intros H. unfold doParseField. by rewrite (resolved_guard ro sf v H).
Qed.

(** A pointer field that is not nil and can be set is handed to [Parse],
    with an empty map of custom parsers. *)
Lemma doParseField_pointer funcMap sf p :
  kindOf (Type_ sf) = Ptr -> PkgPath sf = "" ->
  doParseField doParse false funcMap sf (VPtr (Some p)) =
  Parse (Type_ sf, VPtr (Some p)).
Proof.
  intros Hk Hp. unfold doParseField. rewrite Hp, Hk.
  by rewrite bool_decide_eq_true_2.
Qed.

(* =================================================================== *)
(** *** Properties of the key resolver and of the walker *)
(* =================================================================== *)

(** C9. For a field whose expansion tag is "true" in any letter case and
    whose options include "required", with the base key present in the
    environment, the string that [get] resolves is the value of the
    environment as it stands, with no substitution: the value read again
    for "required" takes the place of the expanded one.  With supported
    options only, [get] returns it with a nil error. *)
Theorem required_discards_expansion sf key opts raw :
  parseKeyForOption (Get (Tag sf) "env") = (key, opts) ->
  ToLower (Get (Tag sf) "envExpand") = "true" ->
  In "required" opts ->
  LookupEnv key = Some raw ->
  fst (get sf) = raw /\ (Forall supported opts -> get sf = (raw, None)).
Proof.
  intros Hp Hexp Hin Hk. unfold get. rewrite Hp, Hexp. cbn [String.eqb].
  split.
  - by apply options_required_value.
  - intros Hall. rewrite options_supported_required by done.
    unfold getRequired. by rewrite Hk.
Qed.

(** C1, amended. Take a field that is resolved through its annotation (it
    is not a pointer that is not nil and can be set), whose options are
    supported ones with "required" among them, and whose base key is
    absent from the environment.  When the fields declared before it end
    well, [ParseWithFuncs] returns the missing-required error that names
    the key, whatever default the field declares, and leaves the field
    and the fields after it as they were. *)
Theorem required_absent_fails t funcMap pre sf post vpre v vpost vpre' log
  key opts :
  kindOf t = Ptr -> kindOf (Elem t) = Struct ->
  fieldsOf (Elem t) = pre ++ sf :: post ->
  length vpre = length pre ->
  doParse false (StructOf pre) (VStruct vpre) (mergeParsers funcMap)
    = (VStruct vpre', log, Return None) ->
  resolved false sf v ->
  parseKeyForOption (Get (Tag sf) "env") = (key, opts) ->
  Forall supported opts -> In "required" opts ->
  LookupEnv key = None ->
  ParseWithFuncs (t, VPtr (Some (VStruct (vpre ++ v :: vpost)))) funcMap
  = (VPtr (Some (VStruct (vpre' ++ v :: vpost))), log,
     Return (Some (ErrRequiredNotSet key))).
Proof.
  intros Hp Hs Hf Hlen Hpre Hres Hkey Hall Hin Habs.
  rewrite ParseWithFuncs_struct by done.
  rewrite (doParse_first_failure false (Elem t) (mergeParsers funcMap)
             pre sf post vpre v vpost vpre' log v []
             (Return (Some (ErrRequiredNotSet key)))); try done.
  - by rewrite app_nil_r.
  - rewrite doParseField_resolved by done. cbn zeta.
    by rewrite (get_required_absent sf key opts).
Qed.

(** C8, amended. Take a field that is a pointer, not nil, that can be
    set, and whose pointee type is not a struct.  When the fields
    declared before it end well, [ParseWithFuncs] returns
    [ErrNotAStructPtr]: the field is handed to [Parse], which refuses the
    pointee.  The field and the fields after it are left as they were. *)
Theorem pointer_to_non_struct_fails t funcMap pre sf post vpre p vpost vpre'
  log :
  kindOf t = Ptr -> kindOf (Elem t) = Struct ->
  fieldsOf (Elem t) = pre ++ sf :: post ->
  length vpre = length pre ->
  doParse false (StructOf pre) (VStruct vpre) (mergeParsers funcMap)
    = (VStruct vpre', log, Return None) ->
  kindOf (Type_ sf) = Ptr -> PkgPath sf = "" ->
  kindOf (Elem (Type_ sf)) <> Struct ->
  ParseWithFuncs (t, VPtr (Some (VStruct (vpre ++ VPtr (Some p) :: vpost))))
    funcMap
  = (VPtr (Some (VStruct (vpre' ++ VPtr (Some p) :: vpost))), log,
     Return (Some ErrNotAStructPtr)).
Proof.
  intros Hp Hs Hf Hlen Hpre Hk Hexp Hns.
  rewrite ParseWithFuncs_struct by done.
  rewrite (doParse_first_failure false (Elem t) (mergeParsers funcMap)
             pre sf post vpre (VPtr (Some p)) vpost vpre' log
             (VPtr (Some p)) [] (Return (Some ErrNotAStructPtr))); try done.
  - by rewrite app_nil_r.
  - rewrite doParseField_pointer by done.
    unfold Parse, ParseWithFuncs, ParseWithFuncs_. cbn [fst snd].
    destruct (decide (kindOf (Type_ sf) = Ptr)); [|done].
    destruct (decide (kindOf (Elem (Type_ sf)) = Struct)); done.
Qed.


(* =================================================================== *)
(** *** The value setter and the collection handler *)
(* =================================================================== *)

Lemma Split_from_cons sep skip cur s :
  exists part parts, Split_from sep skip cur s = part :: parts.
Proof.
  revert skip cur. induction s as [|c s IH]; intros skip cur.
  - by exists cur, [].
  - cbn [Split_from]. destruct skip as [|k].
    + destruct (String.prefix sep (String c s)); [by eexists _, _|].
      apply IH.
    + apply IH.
Qed.

(** [Split] on a separator that is not empty yields at least one part. *)
Lemma Split_cons s sep :
  sep <> "" -> exists part parts, Split s sep = part :: parts.
Proof.
  intros Hsep. unfold Split.
  destruct (String.eqb_spec sep ""); [done|]. apply Split_from_cons.
Qed.

Lemma separator_not_empty sep :
  (if String.eqb sep "" then "," else sep) <> "".
Proof. by destruct (String.eqb_spec sep ""). Qed.

Lemma Set_not_nil ro field x field' out :
  Set_ ro field x = (field', out) -> out <> Return None -> field' = field.
Proof.
  unfold Set_. destruct ro; intros [= <- <-]; [done|]. by intros [].
Qed.

Lemma convertParts_ok parserFunc elemType sf parts rs result :
  kindOf (Elem (Type_ sf)) <> Ptr ->
  Forall2 (fun part r => parserFunc part = (r, None)) parts rs ->
  convertParts parserFunc elemType sf parts result
  = (result ++ map (fun r => Convert r elemType) rs, None).
Proof.
  intros Hk H. revert result.
  induction H as [|part r parts rs Hp _ IH]; intros result.
  - cbn. by rewrite app_nil_r.
  - cbn [convertParts map]. rewrite Hp.
    destruct (decide (kindOf (Elem (Type_ sf)) = Ptr)); [done|].
    rewrite IH. by rewrite <- app_assoc.
Qed.

Lemma convertParts_inv parserFunc elemType sf parts result res :
  convertParts parserFunc elemType sf parts result = (res, None) ->
  exists rs,
    Forall2 (fun part r => parserFunc part = (r, None)) parts rs
    /\ res = result ++ map (fun r => Convert r elemType) rs.
Proof.
  revert result. induction parts as [|part parts IH]; intros result H.
  - cbn in H. injection H as <-. exists []. split; [constructor|].
    by rewrite app_nil_r.
  - cbn [convertParts] in H.
    destruct (parserFunc part) as [r [e|]] eqn:Hp; [discriminate|].
    destruct (decide (kindOf (Elem (Type_ sf)) = Ptr)); [discriminate|].
    destruct (IH _ H) as (rs & Hrs & ->).
    exists (r :: rs). split; [by constructor|].
    cbn [map]. by rewrite <- app_assoc.
Qed.

(** On a slice of pointers the loop ends at its first part, with the
    error of the parser or with the one that refuses such slices. *)
Lemma convertParts_pointer parserFunc elemType sf part parts result :
  kindOf (Elem (Type_ sf)) = Ptr ->
  convertParts parserFunc elemType sf (part :: parts) result
  = (result,
     Some (match snd (parserFunc part) with
           | Some e => parseError sf e
           | None => ErrPointSlices (Name sf) (Type_ sf)
           end)).
Proof.
  intros Hk. cbn [convertParts].
  destruct (parserFunc part) as [r [e|]]; [done|].
  destruct (decide (kindOf (Elem (Type_ sf)) = Ptr)); done.
Qed.

Lemma convertParts_error parserFunc elemType sf parts result res e :
  convertParts parserFunc elemType sf parts result = (res, Some e) ->
  (exists part e', In part parts /\ snd (parserFunc part) = Some e'
                   /\ e = parseError sf e')
  \/ e = ErrPointSlices (Name sf) (Type_ sf).
Proof.
  revert result. induction parts as [|part parts IH]; intros result H.
  - discriminate.
  - cbn [convertParts] in H.
    destruct (parserFunc part) as [r [e'|]] eqn:Hp.
    + injection H as <- <-. left. exists part, e'.
      rewrite Hp. repeat split; by left.
    + destruct (decide (kindOf (Elem (Type_ sf)) = Ptr)).
      * injection H as <- <-. by right.
      * destruct (IH _ H) as [(p & e' & Hin & Hs & ->) | ->]; [left | by right].
        exists p, e'. repeat split; [by right | done].
Qed.

Lemma unmarshalParts_ok elemType sf UnmarshalText_ parts svs :
  let isPtr := bool_decide (kindOf elemType = Ptr) in
  let base := if isPtr then Elem elemType else elemType in
  textUnmarshaler base = Some UnmarshalText_ ->
  Forall2 (fun part sv => UnmarshalText_ (Zero base) part = (sv, None))
    parts svs ->
  unmarshalParts elemType sf parts
  = Some (map (fun sv => if isPtr then VPtr (Some sv) else sv) svs, None).
Proof.
  intros isPtr base Hm H.
  induction H as [|part sv parts svs Hp _ IH]; [done|].
  cbn [unmarshalParts map]. fold isPtr. fold base.
  rewrite Hm, Hp, IH. done.
Qed.

Lemma unmarshalParts_inv elemType sf parts elems :
  let isPtr := bool_decide (kindOf elemType = Ptr) in
  let base := if isPtr then Elem elemType else elemType in
  unmarshalParts elemType sf parts = Some (elems, None) ->
  Forall2 (fun part elem =>
             exists UnmarshalText_ sv,
               textUnmarshaler base = Some UnmarshalText_
               /\ UnmarshalText_ (Zero base) part = (sv, None)
               /\ elem = if isPtr then VPtr (Some sv) else sv)
    parts elems.
Proof.
  intros isPtr base. revert elems.
  induction parts as [|part parts IH]; intros elems H.
  - cbn in H. injection H as <-. constructor.
  - cbn [unmarshalParts] in H. fold isPtr in H. fold base in H.
    destruct (textUnmarshaler base) as [m|] eqn:Hm; [|discriminate].
    destruct (m (Zero base) part) as [sv [e|]] eqn:Hp; [discriminate|].
    destruct (unmarshalParts elemType sf parts) as [[els err]|] eqn:Hrest;
      [|discriminate].
    injection H as <- ->.
    constructor; [by exists m, sv | by apply IH].
Qed.

Lemma handleSlice_unfold ro field value sf funcMap :
  handleSlice ro field value sf funcMap =
  let separator := Get (Tag sf) "envSeparator" in
  let parts := Split value (if String.eqb separator "" then "," else separator) in
  match textUnmarshaler (baseElem sf) with
  | Some _ => parseTextUnmarshalers ro field parts sf
  | None =>
      match elemParser funcMap (baseElem sf) with
      | None => (field, Return (Some (newNoParserError sf)))
      | Some parserFunc =>
          match convertParts parserFunc (baseElem sf) sf parts [] with
          | (_, Some e) => (field, Return (Some e))
          | (result, None) => Set_ ro field (VSlice result)
          end
      end
  end.
Proof. reflexivity. Qed.

Lemma unmarshalParts_base sf :
  (if bool_decide (kindOf (Elem (Type_ sf)) = Ptr)
   then Elem (Elem (Type_ sf)) else Elem (Type_ sf)) = baseElem sf.
Proof. unfold baseElem. by case_bool_decide; case_decide. Qed.

(** C2. For a field that is not a slice, [set] picks the converter in
    this order: the entry of the registry for the exact type of the
    field; failing that, the built-in parser of the kind of the type;
    and only with neither, the [UnmarshalText] path.  An entry of the
    registry thus shadows the built-in parser of the kind. *)
Theorem set_converter_precedence ro field sf value funcMap :
  kindOf (Type_ sf) <> Slice ->
  (forall parserFunc, funcMap !! Type_ sf = Some parserFunc ->
     set ro field sf value funcMap =
     match parserFunc value with
     | (_, Some e) => (field, Return (Some (parseError sf e)))
     | (val, None) => Set_ ro field val
     end)
  /\ (forall parserFunc,
        funcMap !! Type_ sf = None ->
        defaultBuiltInParsers (kindOf (Type_ sf)) = Some parserFunc ->
        set ro field sf value funcMap =
        match parserFunc value with
        | (_, Some e) => (field, Return (Some (parseError sf e)))
        | (val, None) => Set_ ro field (Convert val (Type_ sf))
        end)
  /\ (funcMap !! Type_ sf = None ->
      defaultBuiltInParsers (kindOf (Type_ sf)) = None ->
      set ro field sf value funcMap = handleTextUnmarshaler ro field value sf).
Proof.
  intros Hk. unfold set.
  destruct (decide (kindOf (Type_ sf) = Slice)); [done|].
  split; [|split].
  - intros p Hp. rewrite Hp. by destruct (p value) as [val [e|]].
  - intros p Hp Hb. rewrite Hp, Hb. by destruct (p value) as [val [e|]].
  - intros Hp Hb. by rewrite Hp, Hb.
Qed.

(** C4. For a slice field, the string is cut at the separator the field
    declares, at "," when it declares none, and the parts become the
    elements, each on its own and in the order of the parts: when [set]
    ends well the field holds the slice of the elements of the parts,
    and when every part has an element (the field can be set, and is
    not a slice of pointers to a type without [UnmarshalText]) [set]
    ends well with that slice in place of what the field held. *)
Theorem slice_parts_in_order ro field sf value funcMap :
  kindOf (Type_ sf) = Slice ->
  let separator := Get (Tag sf) "envSeparator" in
  let parts := Split value (if String.eqb separator "" then "," else separator) in
  (forall field',
      set ro field sf value funcMap = (field', Return None) ->
      exists elems,
        field' = VSlice elems /\ Forall2 (sliceElem sf funcMap) parts elems)
  /\ (forall elems,
        Forall2 (sliceElem sf funcMap) parts elems ->
        ro = false ->
        textUnmarshaler (baseElem sf) <> None
        \/ kindOf (Elem (Type_ sf)) <> Ptr ->
        set ro field sf value funcMap = (VSlice elems, Return None)).
Proof.
  intros Hk separator parts. unfold set.
  destruct (decide (kindOf (Type_ sf) = Slice)); [|done].
  rewrite handleSlice_unfold. cbn zeta. fold separator. fold parts.
  unfold sliceElem. split.
  - intros field'.
    destruct (textUnmarshaler (baseElem sf)) as [m|] eqn:Hm.
    + unfold parseTextUnmarshalers.
      destruct (unmarshalParts (Elem (Type_ sf)) sf parts)
        as [[elems [err|]]|] eqn:Hu; try discriminate.
      unfold Set_. destruct ro; [discriminate|]. intros [= <-].
      exists elems. split; [done|].
      apply unmarshalParts_inv in Hu. cbn zeta in Hu.
      rewrite unmarshalParts_base in Hu.
      eapply Forall2_impl; [|exact Hu].
      intros part elem (m' & sv & Hm' & Hp & ->).
      rewrite Hm in Hm'. injection Hm' as <-.
      exists sv. split; [done|]. by case_bool_decide; case_decide.
    + destruct (elemParser funcMap (baseElem sf)) as [p|] eqn:Hp;
        [|discriminate].
      destruct (convertParts p (baseElem sf) sf parts []) as [res [err|]] eqn:Hc;
        [discriminate|].
      unfold Set_. destruct ro; [discriminate|]. intros [= <-].
      apply convertParts_inv in Hc. destruct Hc as (rs & Hrs & ->).
      exists (map (fun r => Convert r (baseElem sf)) rs). split; [done|].
      clear -Hrs. induction Hrs as [|part r parts rs H _ IH]; cbn [map].
      * constructor.
      * constructor; [by exists p, r | exact IH].
  - intros elems Hel -> Hshape.
    destruct (textUnmarshaler (baseElem sf)) as [m|] eqn:Hm.
    + unfold parseTextUnmarshalers.
      assert (exists svs,
                 Forall2 (fun part sv => m (Zero (baseElem sf)) part = (sv, None))
                   parts svs
                 /\ elems = map (fun sv =>
                                   if bool_decide (kindOf (Elem (Type_ sf)) = Ptr)
                                   then VPtr (Some sv) else sv) svs)
        as (svs & Hsvs & ->).
      { clear -Hel. induction Hel as [|part elem parts elems H _ IH].
        - exists []. split; [constructor | done].
        - destruct H as (sv & Hp & ->). destruct IH as (svs & Hsvs & ->).
          exists (sv :: svs). split; [by constructor|].
          cbn [map]. by case_bool_decide; case_decide. }
      rewrite (unmarshalParts_ok (Elem (Type_ sf)) sf m parts svs).
      * done.
      * by rewrite unmarshalParts_base.
      * by rewrite unmarshalParts_base.
    + destruct Hshape as [? | Hnp]; [done|].
      destruct (Split_cons value (if String.eqb separator "" then "," else separator))
        as (p0 & ps & Hsp); [apply separator_not_empty|].
      fold parts in Hsp.
      assert (exists p, elemParser funcMap (baseElem sf) = Some p)
        as (p & Hp).
      { rewrite Hsp in Hel.
        inversion Hel as [|? ? ? ? (p & r & Hp & _) _]. by exists p. }
      rewrite Hp.
      assert (exists rs,
                 Forall2 (fun part r => p part = (r, None)) parts rs
                 /\ elems = map (fun r => Convert r (baseElem sf)) rs)
        as (rs & Hrs & ->).
      { clear -Hel Hp. induction Hel as [|part elem parts elems H _ IH].
        - exists []. split; [constructor | done].
        - destruct H as (p' & r & Hp' & Hr & ->).
          destruct IH as (rs & Hrs & ->).
          rewrite Hp in Hp'. injection Hp' as <-.
          exists (r :: rs). split; [by constructor | done]. }
      by rewrite (convertParts_ok p (baseElem sf) sf parts rs []).
Qed.

(** C5, amended. For a slice field whose elements are pointers to a type
    that has no [UnmarshalText] and for which a parser is found (the
    built-in one of its kind, or an entry of the registry), [set] never
    ends well and leaves the field as it was: it returns the error that
    refuses slices of pointers when the first part of the string
    converts, and the parse error of the first part when it does not. *)
Theorem pointer_slice_rejected ro field sf value funcMap parserFunc :
  kindOf (Type_ sf) = Slice ->
  kindOf (Elem (Type_ sf)) = Ptr ->
  textUnmarshaler (baseElem sf) = None ->
  elemParser funcMap (baseElem sf) = Some parserFunc ->
  let separator := Get (Tag sf) "envSeparator" in
  let parts := Split value (if String.eqb separator "" then "," else separator) in
  set ro field sf value funcMap =
  (field,
   Return (Some (match snd (parserFunc (hd "" parts)) with
                 | Some e => parseError sf e
                 | None => ErrPointSlices (Name sf) (Type_ sf)
                 end))).
Proof.
  intros Hk Hp Hm Hf separator parts. unfold set.
  destruct (decide (kindOf (Type_ sf) = Slice)); [|done].
  rewrite handleSlice_unfold. cbn zeta. fold separator. fold parts.
  rewrite Hm, Hf.
  destruct (Split_cons value (if String.eqb separator "" then "," else separator))
    as (part & rest & Hsp); [apply separator_not_empty|].
  fold parts in Hsp. rewrite Hsp. cbn [hd].
  by rewrite convertParts_pointer.
Qed.

(** C7, amended. When [set] does not end well: on the converter paths (a
    slice field, an entry of the registry for the type, a built-in parser
    for the kind) the field holds the value it had before the call.  On
    the [UnmarshalText] path the field is written before the outcome is
    known: a nil pointer field is first given a fresh pointee, on which
    the method then runs, and a field that is not a pointer is
    unmarshalled in place; the field is left with what the method left
    behind, and for a pointer that was nil with the pointee allotted to
    it. *)
Theorem failed_set_field_state ro field sf value funcMap field' out :
  set ro field sf value funcMap = (field', out) ->
  out <> Return None ->
  (kindOf (Type_ sf) = Slice
   \/ funcMap !! Type_ sf <> None
   \/ defaultBuiltInParsers (kindOf (Type_ sf)) <> None ->
   field' = field)
  /\ (kindOf (Type_ sf) <> Slice ->
      funcMap !! Type_ sf = None ->
      defaultBuiltInParsers (kindOf (Type_ sf)) = None ->
      ro = false ->
      (forall E, Type_ sf = PtrTo E -> field = VPtr None ->
         field' = VPtr (Some (match textUnmarshaler E with
                              | Some UnmarshalText_ =>
                                  fst (UnmarshalText_ (Zero E) value)
                              | None => Zero E
                              end)))
      /\ (kindOf (Type_ sf) <> Ptr ->
          field' = match textUnmarshaler (Type_ sf) with
                   | Some UnmarshalText_ => fst (UnmarshalText_ field value)
                   | None => field
                   end)).
Proof.
  intros Hset Hout. split.
  - intros Hpath. unfold set in Hset.
    destruct (decide (kindOf (Type_ sf) = Slice)) as [Hs|Hs].
    + rewrite handleSlice_unfold in Hset. cbn zeta in Hset.
      destruct (textUnmarshaler (baseElem sf)).
      * unfold parseTextUnmarshalers in Hset.
        destruct (unmarshalParts _ _ _) as [[elems [err|]]|] in Hset.
        -- by injection Hset.
        -- by eapply Set_not_nil.
        -- by injection Hset.
      * destruct (elemParser funcMap (baseElem sf)) as [p|];
          [|by injection Hset].
        destruct (convertParts _ _ _ _ _) as [res [err|]] in Hset.
        -- by injection Hset.
        -- by eapply Set_not_nil.
    + destruct (funcMap !! Type_ sf) as [p|] eqn:Hc.
      * destruct (p value) as [val [err|]].
        -- by injection Hset.
        -- by eapply Set_not_nil.
      * destruct (defaultBuiltInParsers (kindOf (Type_ sf))) as [p|] eqn:Hb.
        -- destruct (p value) as [val [err|]].
           ++ by injection Hset.
           ++ by eapply Set_not_nil.
        -- by destruct Hpath as [? | [? | ?]].
  - intros Hs Hc Hb ->. unfold set in Hset.
    destruct (decide (kindOf (Type_ sf) = Slice)); [done|].
    rewrite Hc, Hb in Hset. unfold handleTextUnmarshaler in Hset. split.
    + intros E HE ->. rewrite HE in Hset. cbn in Hset.
      destruct (textUnmarshaler E) as [m|].
      * destruct (m (Zero E) value) as [pointee err].
        by injection Hset as <- _.
      * by injection Hset as <- _.
    + intros Hnp.
      destruct (decide (kindOf (Type_ sf) = Ptr)); [done|].
      destruct (textUnmarshaler (Type_ sf)) as [m|].
      * destruct (m field value) as [f err]. by injection Hset as <- _.
      * by injection Hset as <- _.
Qed.

(* =================================================================== *)
(** *** The built-in parsers of int and uint *)
(* =================================================================== *)

Lemma isDigit_digitOf c :
  isDigit c = true ->
  digitOf c = Some (byte c - 48) /\ 0 <= byte c - 48 < 10.
Proof.
  unfold isDigit, digitOf. intros H. rewrite H.
  apply andb_true_iff in H. destruct H as [H1 H2].
  apply Z.leb_le in H1, H2. split; [done | lia].
Qed.

Lemma isDigit_not_sign c :
  isDigit c = true -> Ascii.eqb c "+" = false /\ Ascii.eqb c "-" = false.
Proof.
  destruct c as [[] [] [] [] [] [] [] []]; vm_compute; intros H;
    (discriminate H || done).
Qed.

Lemma decimalFrom_ge s acc v :
  0 <= acc -> decimalFrom acc s = Some v -> acc <= v.
Proof.
  revert acc. induction s as [|c s IH]; intros acc Hacc H.
  - cbn in H. injection H as <-. lia.
  - cbn [decimalFrom] in H. destruct (isDigit c) eqn:Hd; [|discriminate].
    destruct (isDigit_digitOf c Hd) as [_ Hr].
    apply IH in H; lia.
Qed.

Lemma uint64_small z : 0 <= z < 2 ^ 64 -> uint64 z = z.
Proof. intros H. unfold uint64. by apply Z.mod_small. Qed.

Lemma uint64_wrap z : 2 ^ 64 <= z < 2 * 2 ^ 64 -> uint64 z = z - 2 ^ 64.
Proof.
  intros H. unfold uint64. symmetry.
  apply (Z.mod_unique z (2 ^ 64) 1 (z - 2 ^ 64)); lia.
Qed.

(** On decimal digits the loop of [ParseUint] yields the number written
    when it is at most [maxVal], and the range error otherwise. *)
Lemma ParseUint_loop_decimal maxVal s n v :
  0 <= n <= maxVal -> maxVal <= maxUint64 ->
  decimalFrom n s = Some v ->
  ParseUint_loop 10 maxVal (maxUint64 / 10 + 1) n s =
  if v <=? maxVal then (v, None) else (maxVal, Some ErrRange).
Proof.
  intros Hn Hmax. revert n Hn. induction s as [|c s IH]; intros n Hn H.
  - cbn in H. injection H as <-. cbn.
    destruct (Z.leb_spec n maxVal); [done | lia].
  - cbn [decimalFrom] in H. destruct (isDigit c) eqn:Hd; [|discriminate].
    destruct (isDigit_digitOf c Hd) as [Hdig Hr].
    cbn [ParseUint_loop]. rewrite Hdig.
    set (d := byte c - 48) in *.
    assert (Hv : 10 * n + d <= v) by (apply decimalFrom_ge in H; lia).
    change (maxUint64 / 10 + 1) with 1844674407370955162.
    unfold maxUint64 in Hmax.
    change (2 ^ 64) with 18446744073709551616 in Hmax.
    destruct (Z.leb_spec 10 d); [lia|].
    destruct (Z.leb_spec 1844674407370955162 n).
    { destruct (Z.leb_spec v maxVal); [lia | done]. }
    rewrite (uint64_small (n * 10))
      by (change (2 ^ 64) with 18446744073709551616; lia).
    destruct (Z_lt_ge_dec (n * 10 + d) (2 ^ 64)) as [Hlt | Hge].
    + rewrite (uint64_small (n * 10 + d)) by lia.
      destruct (Z.ltb_spec (n * 10 + d) (n * 10)); [lia|]. cbn [orb].
      destruct (Z.ltb_spec maxVal (n * 10 + d)).
      * destruct (Z.leb_spec v maxVal); [lia | done].
      * apply IH; [lia|]. by replace (n * 10 + d) with (10 * n + d) by lia.
    + change (2 ^ 64) with 18446744073709551616 in Hge.
      rewrite (uint64_wrap (n * 10 + d))
        by (change (2 ^ 64) with 18446744073709551616; lia).
      change (2 ^ 64) with 18446744073709551616.
      destruct (Z.ltb_spec (n * 10 + d - 18446744073709551616) (n * 10));
        [|lia].
      cbn [orb]. destruct (Z.leb_spec v maxVal); [lia | done].
Qed.

Lemma ParseUint_decimal s bitSize v :
  1 <= bitSize <= 64 ->
  decimal s = Some v ->
  ParseUint s 10 bitSize =
  if v <=? 2 ^ bitSize - 1 then (v, None)
  else (2 ^ bitSize - 1, Some (NumError "ParseUint" s ErrRange)).
Proof.
  intros Hb Hdec. unfold decimal in Hdec. unfold ParseUint.
  destruct (String.eqb s ""); [discriminate|].
  assert (Hpow : 2 <= 2 ^ bitSize <= 2 ^ 64).
  { split.
    - change 2 with (2 ^ 1) at 1. apply Z.pow_le_mono_r; lia.
    - apply Z.pow_le_mono_r; lia. }
  assert (Hmax : uint64 (uint64 (2 ^ bitSize) - 1) = 2 ^ bitSize - 1).
  { destruct (Z.eq_dec bitSize 64) as [-> | Hne].
    - reflexivity.
    - assert (2 ^ bitSize < 2 ^ 64) by (apply Z.pow_lt_mono_r; lia).
      rewrite (uint64_small (2 ^ bitSize)) by lia.
      apply uint64_small. lia. }
  rewrite Hmax.
  rewrite (ParseUint_loop_decimal (2 ^ bitSize - 1) s 0 v);
    [| lia | unfold maxUint64; lia | done].
  by destruct (Z.leb_spec v (2 ^ bitSize - 1)).
Qed.

Lemma decimal_first_digit s v :
  decimal s = Some v -> exists c rest, s = String c rest /\ isDigit c = true.
Proof.
  unfold decimal. destruct s as [|c rest]; [discriminate|].
  cbn. destruct (isDigit c) eqn:Hd; [|discriminate]. by exists c, rest.
Qed.

(** [ParseInt] with a size of 32 bits refuses a decimal number from 2^31
    on, and behind a minus sign one above 2^31. *)
Lemma ParseInt_32_range s v :
  decimal s = Some v ->
  (2 ^ 31 <= v ->
   snd (ParseInt s 10 32) = Some (NumError "ParseInt" s ErrRange))
  /\ (2 ^ 31 < v ->
      snd (ParseInt ("-" +:+ s) 10 32)
      = Some (NumError "ParseInt" ("-" +:+ s) ErrRange)).
Proof.
  intros Hdec.
  pose proof (ParseUint_decimal s 32 v ltac:(lia) Hdec) as HU.
  change (2 ^ 32 - 1) with 4294967295 in HU.
  change (2 ^ 31) with 2147483648.
  split; intros Hv.
  - destruct (decimal_first_digit s v Hdec) as (c & rest & -> & Hd).
    destruct (isDigit_not_sign c Hd) as [Hplus Hminus].
    unfold ParseInt. rewrite Hplus, Hminus. rewrite HU.
    destruct (Z.leb_spec v 4294967295); cbn [negb andb].
    + change (uint64 (2 ^ (32 - 1))) with 2147483648.
      destruct (Z.leb_spec 2147483648 v); [done | lia].
    + reflexivity.
  - change ("-" +:+ s) with (String "-" s). unfold ParseInt.
    change (Ascii.eqb "-" "+") with false.
    change (Ascii.eqb "-" "-") with true.
    cbv beta iota zeta. rewrite HU.
    destruct (Z.leb_spec v 4294967295); cbn [negb andb].
    + change (uint64 (2 ^ (32 - 1))) with 2147483648.
      destruct (Z.ltb_spec 2147483648 v); [done | lia].
    + reflexivity.
Qed.

(** C10. For a field of kind int or uint with no entry of the registry
    for its type, the built-in parser reads the string with a size of 32
    bits, whatever the width [IntSize] of int and uint: a decimal number
    outside the 32-bit range of the kind makes [set] return a parse error
    and the field keeps its value.  For int the number is one from 2^31
    on, or one below -2^31, and the error is the range error of
    [strconv]; for uint it is one from 2^32 on, with the range error, or
    one behind a minus sign, which [ParseUint] refuses as bad syntax. *)
Theorem int_uint_limited_to_32_bits ro field sf s n funcMap :
  decimal s = Some n ->
  funcMap !! Type_ sf = None ->
  (kindOf (Type_ sf) = Int -> 2 ^ 31 <= n ->
   set ro field sf s funcMap
   = (field, Return (Some (parseError sf (NumError "ParseInt" s ErrRange)))))
  /\ (kindOf (Type_ sf) = Int -> 2 ^ 31 < n ->
      set ro field sf ("-" +:+ s) funcMap
      = (field,
         Return (Some (parseError sf
                         (NumError "ParseInt" ("-" +:+ s) ErrRange)))))
  /\ (kindOf (Type_ sf) = Uint -> 2 ^ 32 <= n ->
      set ro field sf s funcMap
      = (field, Return (Some (parseError sf (NumError "ParseUint" s ErrRange)))))
  /\ (kindOf (Type_ sf) = Uint -> 0 < n ->
      set ro field sf ("-" +:+ s) funcMap
      = (field,
         Return (Some (parseError sf
                         (NumError "ParseUint" ("-" +:+ s) ErrSyntax))))).
Proof.
  intros Hdec Hc.
  destruct (ParseInt_32_range s n Hdec) as [Hpos Hneg].
  split; [|split; [|split]]; intros Hk Hn; unfold set; rewrite Hk;
    (destruct (decide (_ = Slice)); [discriminate|]);
    rewrite Hc; cbn [defaultBuiltInParsers].
  - specialize (Hpos Hn). destruct (ParseInt s 10 32) as [i err].
    cbn [snd] in Hpos. by rewrite Hpos.
  - specialize (Hneg Hn). destruct (ParseInt ("-" +:+ s) 10 32) as [i err].
    cbn [snd] in Hneg. by rewrite Hneg.
  - rewrite (ParseUint_decimal s 32 n) by (lia || done).
    change (2 ^ 32 - 1) with 4294967295.
    change (2 ^ 32) with 4294967296 in Hn.
    destruct (Z.leb_spec n 4294967295); [lia | done].
  - reflexivity.
Qed.

(* ===================================================================== *)
(** *** Further properties: strings *)
(* ===================================================================== *)

Lemma append_String (c : ascii) (a b : string) :
  String c a +:+ b = String c (a +:+ b).
Proof. reflexivity. Qed.

Lemma append_empty_r (s : string) : s +:+ "" = s.
Proof. induction s as [|c s IH]; [done|]. by rewrite append_String, IH. Qed.

Lemma append_assoc_string (a b c : string) : (a +:+ b) +:+ c = a +:+ (b +:+ c).
Proof.
  induction a as [|x a IH]; [done|]. by rewrite !append_String, IH.
Qed.

Lemma prefix_dropBytes (p s : string) :
  String.prefix p s = true -> s = p +:+ dropBytes (String.length p) s.
Proof.
  revert s. induction p as [|c p IH]; intros s H; [done|].
  destruct s as [|d s]; [discriminate|]. cbn in H.
  destruct (ascii_dec c d) as [->|]; [|discriminate].
  rewrite append_String. cbn [String.length dropBytes]. f_equal. by apply IH.
Qed.

Lemma dropBytes_length (k : nat) (s : string) :
  (String.length (dropBytes k s) <= String.length s)%nat.
Proof.
  revert s. induction k as [|k IH]; intros [|c s]; cbn; try lia.
  specialize (IH s). lia.
Qed.

(** Skipping [k] bytes and then cutting is cutting what is left after
    them. *)
Lemma Split_from_skip sep k cur s :
  Split_from sep k cur s = Split_from sep 0 cur (dropBytes k s).
Proof.
  revert k. induction s as [|c s IH]; intros [|k]; try done.
  cbn [Split_from dropBytes]. apply IH.
Qed.

Lemma concat_cons_parts sep x part parts :
  String.concat sep (x :: part :: parts)
  = x +:+ sep +:+ String.concat sep (part :: parts).
Proof. reflexivity. Qed.

Lemma Split_from_join sep n s cur :
  sep <> "" -> (String.length s <= n)%nat ->
  String.concat sep (Split_from sep 0 cur s) = cur +:+ s.
Proof.
  intros Hsep. revert s cur. induction n as [|n IH]; intros s cur Hlen.
  - destruct s; [|cbn in Hlen; lia]. cbn. by rewrite append_empty_r.
  - destruct s as [|c s]; [cbn; by rewrite append_empty_r|].
    cbn [Split_from]. cbn in Hlen.
    destruct (String.prefix sep (String c s)) eqn:Hp.
    + rewrite Split_from_skip.
      destruct (Split_from_cons sep 0 "" (dropBytes (String.length sep - 1) s))
        as (part & parts & Hparts).
      rewrite Hparts, concat_cons_parts, <- Hparts.
      rewrite IH by (pose proof (dropBytes_length (String.length sep - 1) s); lia).
      change ("" +:+ dropBytes (String.length sep - 1) s)
        with (dropBytes (String.length sep - 1) s).
      f_equal.
      apply prefix_dropBytes in Hp.
      destruct sep as [|d sep]; [done|].
      cbn [String.length dropBytes] in Hp. cbn [String.length].
      by replace (S (String.length sep) - 1)%nat with (String.length sep) by lia.
    + rewrite IH by lia. by rewrite append_assoc_string.
Qed.

(** Joining the parts of [Split] with the separator gives the string
    back. *)
Lemma Split_join s sep :
  sep <> "" -> String.concat sep (Split s sep) = s.
Proof.
  intros Hsep. unfold Split. destruct (String.eqb_spec sep ""); [done|].
  by rewrite (Split_from_join sep (String.length s)).
Qed.

(** Whether a byte occurs in a string. *)
Fixpoint hasByte (c : ascii) (s : string) : bool :=
  match s with
  | EmptyString => false
  | String d s' => Ascii.eqb c d || hasByte c s'
  end.

Lemma hasByte_append c a b :
  hasByte c (a +:+ b) = hasByte c a || hasByte c b.
Proof.
  induction a as [|d a IH]; [done|]. rewrite append_String. cbn [hasByte].
  rewrite IH. by rewrite orb_assoc.
Qed.

(** With a separator of one byte, no part holds the separator. *)
Lemma Split_from_byte_free c cur s :
  hasByte c cur = false ->
  Forall (fun part => hasByte c part = false)
    (Split_from (String c "") 0 cur s).
Proof.
  revert cur. induction s as [|d s IH]; intros cur Hcur.
  - by constructor.
  - cbn [Split_from]. cbn [String.prefix].
    destruct (ascii_dec c d) as [->|Hne].
    + destruct s; (constructor; [done | by apply IH]).
    + apply IH. rewrite hasByte_append, Hcur. cbn.
      destruct (Ascii.eqb_spec c d); done.
Qed.

(* ===================================================================== *)
(** *** Further properties: the key resolver and the registry *)
(* ===================================================================== *)

(** X1. [parseKeyForOption] loses nothing of the tag: the key and the
    options joined with commas are the tag again, and neither the key nor
    an option holds a comma. *)
Theorem parseKeyForOption_join tag key opts :
  parseKeyForOption tag = (key, opts) ->
  String.concat "," (key :: opts) = tag
  /\ Forall (fun part => hasByte "," part = false) (key :: opts).
Proof.
  unfold parseKeyForOption. intros H.
  destruct (Split tag ",") as [|k o] eqn:Hs.
  { destruct (Split_cons tag ",") as (? & ? & ?); [done | congruence]. }
  injection H as <- <-. rewrite <- Hs. split.
  - by apply Split_join.
  - apply (Split_from_byte_free "," "" tag). reflexivity.
Qed.

(** X2. With no option but empty ones and without expansion, [get]
    returns the value of the environment when the key is present, and the
    default of the field (the empty string when it declares none) when the
    key is absent, with a nil error: the environment comes before the
    default. *)
Theorem get_environment_before_default sf key opts :
  parseKeyForOption (Get (Tag sf) "env") = (key, opts) ->
  Forall (fun opt => opt = "") opts ->
  ToLower (Get (Tag sf) "envExpand") <> "true" ->
  get sf = (match LookupEnv key with
            | Some value => value
            | None => Get (Tag sf) "envDefault"
            end, None).
Proof.
  intros Hp Hopts Hexp. unfold get. rewrite Hp.
  destruct (String.eqb_spec (ToLower (Get (Tag sf) "envExpand")) "true");
    [done|].
  unfold getOr. clear Hp.
  generalize (match LookupEnv key with
              | Some value => value
              | None => Get (Tag sf) "envDefault"
              end, @None error).
  induction Hopts as [|opt opts -> _ IH]; intros acc; [done|].
  cbn [fold_left]. rewrite applyOption_empty. apply IH.
Qed.

(** The errors of the loop over the options: the missing-required one, with
    an empty value, or the one of an option that is not supported. *)
Definition optionError (key : string) (opts : list string)
  (acc : string * option error) : Prop :=
  snd acc = None
  \/ (acc = ("", Some (ErrRequiredNotSet key))
      /\ LookupEnv key = None /\ In "required" opts)
  \/ (exists opt, In opt opts /\ opt <> "" /\ opt <> "required"
                  /\ snd acc = Some (ErrTagOption opt)).

Lemma options_error_cases key opts done_ acc :
  (forall opt, In opt done_ -> In opt opts) ->
  optionError key opts acc ->
  optionError key opts (fold_left (applyOption key) done_ acc).
Proof.
  revert acc. induction done_ as [|opt rest IH]; intros acc Hin Hacc; [done|].
  cbn [fold_left]. apply IH; [intros o Ho; apply Hin; by right|].
  unfold applyOption.
  destruct (String.eqb_spec opt ""); [done|].
  destruct (String.eqb_spec opt "required") as [->|].
  - unfold getRequired. destruct (LookupEnv key) eqn:Hk; [by left|].
    right. left. repeat split; [done|]. apply Hin. by left.
  - right. right. exists opt. repeat split; try done. apply Hin. by left.
Qed.

(** X3. [get] returns an error in two cases only: the key is absent and
    "required" is among the options, and then the value is empty and the
    error names the key; or some option is neither empty nor "required",
    and then the error names one such option of the tag. *)
Theorem get_error_cases sf key opts val e :
  parseKeyForOption (Get (Tag sf) "env") = (key, opts) ->
  get sf = (val, Some e) ->
  (e = ErrRequiredNotSet key /\ val = ""
   /\ LookupEnv key = None /\ In "required" opts)
  \/ (exists opt, In opt opts /\ opt <> "" /\ opt <> "required"
                  /\ e = ErrTagOption opt).
Proof.
  intros Hp Hget. unfold get in Hget. rewrite Hp in Hget.
  match type of Hget with
  | fold_left _ _ ?acc = _ =>
      pose proof (options_error_cases key opts opts acc
                    (fun _ H => H) (or_introl eq_refl)) as H
  end.
  rewrite Hget in H. destruct H as [H | [(H & Hk & Hin) | (opt & Hin & H1 & H2 & H)]].
  - discriminate.
  - injection H as -> ->. by left.
  - cbn in H. injection H as ->. right. by exists opt.
Qed.

(** X4. The registry a walk runs with: an entry of the caller's map wins
    over a baseline entry for the same type, and the baseline entries stay
    for the types the caller has no entry for, the duration one among
    them. *)
Theorem caller_parsers_over_baseline (funcMap : gmap type ParserFunc) t :
  (forall parserFunc, funcMap !! t = Some parserFunc ->
     mergeParsers funcMap !! t = Some parserFunc)
  /\ (funcMap !! t = None ->
      mergeParsers funcMap !! t = defaultCustomParsers !! t)
  /\ (funcMap !! DurationType = None ->
      mergeParsers funcMap !! DurationType = Some DurationFunc)
  /\ (funcMap !! URLType = None -> URLType <> DurationType ->
      mergeParsers funcMap !! URLType = Some URLFunc).
Proof.
  repeat split.
  - intros p Hp. by rewrite mergeParsers_lookup, Hp.
  - intros Hn. by rewrite mergeParsers_lookup, Hn.
  - intros Hn. rewrite mergeParsers_lookup, Hn.
    unfold defaultCustomParsers. by rewrite lookup_insert_eq.
  - intros Hn Hne. rewrite mergeParsers_lookup, Hn.
    unfold defaultCustomParsers.
    rewrite lookup_insert_ne by done. by rewrite lookup_insert_eq.
Qed.

(** X5. [ParseWithFuncs] refuses, with [ErrNotAStructPtr], a value that is
    not a pointer, a nil pointer, and a pointer to something that is not a
    struct; the value is not touched and [OnEnvVarSet] is not called,
    whatever the map of parsers. *)
Theorem root_must_be_struct_pointer t v funcMap :
  kindOf t <> Ptr \/ v = VPtr None \/ kindOf (Elem t) <> Struct ->
  ParseWithFuncs (t, v) funcMap = (v, [], Return (Some ErrNotAStructPtr)).
Proof.
  intros H. unfold ParseWithFuncs, ParseWithFuncs_. cbn [fst snd].
  destruct (decide (kindOf t = Ptr)) as [Hp|]; [|done].
  destruct v as [| | | |[ref|]| | |]; try done.
  destruct (decide (kindOf (Elem t) = Struct)) as [Hs|]; [|done].
  destruct H as [H | [H | H]]; done.
Qed.

(* ===================================================================== *)
(** *** Further properties: the value setter *)
(* ===================================================================== *)

Lemma unmarshalParts_error elemType sf parts elems e :
  unmarshalParts elemType sf parts = Some (elems, Some e) ->
  exists e', e = parseError sf e'.
Proof.
  revert elems. induction parts as [|part parts IH]; intros elems H.
  - discriminate.
  - cbn [unmarshalParts] in H.
    destruct (textUnmarshaler _) as [m|]; [|discriminate].
    destruct (m _ part) as [sv [e'|]].
    + injection H as _ <-. by exists e'.
    + destruct (unmarshalParts elemType sf parts) as [[els err]|] eqn:Hrest;
        [|discriminate].
      injection H as _ ->. by eapply IH.
Qed.

(** X6. Every error that [set] returns tells the field it comes from: it
    is a parse error on the field, the no-parser error of the field, or
    the error that refuses the field as a slice of pointers. *)
Theorem set_errors_name_field ro field sf value funcMap field' e :
  set ro field sf value funcMap = (field', Return (Some e)) ->
  (exists e', e = parseError sf e')
  \/ e = ErrNoParser sf
  \/ e = ErrPointSlices (Name sf) (Type_ sf).
Proof.
  unfold set. destruct (decide (kindOf (Type_ sf) = Slice)).
  - rewrite handleSlice_unfold. cbn zeta.
    destruct (textUnmarshaler (baseElem sf)).
    + unfold parseTextUnmarshalers.
      destruct (unmarshalParts _ _ _) as [[elems [err|]]|] eqn:Hu.
      * intros [= _ <-]. left. by eapply unmarshalParts_error.
      * unfold Set_. by destruct ro.
      * discriminate.
    + destruct (elemParser funcMap (baseElem sf)) as [p|].
      * destruct (convertParts _ _ _ _ _) as [res [err|]] eqn:Hc.
        -- intros [= _ <-].
           destruct (convertParts_error _ _ _ _ _ _ _ Hc)
             as [(part & e' & _ & _ & ->) | ->]; [left; by exists e' | by right; right].
        -- unfold Set_. by destruct ro.
      * intros [= _ <-]. right. by left.
  - assert (Hparser : forall (p : ParserFunc) (conv : Value -> Value),
               (let '(val, err) := p value in
                match err with
                | Some e0 => (field, Return (newParseError sf (Some e0)))
                | None => Set_ ro field (conv val)
                end) = (field', Return (Some e)) ->
               exists e', e = parseError sf e').
    { intros p conv. destruct (p value) as [val [e0|]].
      - intros [= _ <-]. by exists e0.
      - unfold Set_. by destruct ro. }
    destruct (funcMap !! Type_ sf) as [p|].
    { intros H. left. by apply (Hparser p (fun val => val)). }
    destruct (defaultBuiltInParsers (kindOf (Type_ sf))) as [p|].
    { intros H. left. by apply (Hparser p (fun val => Convert val (Type_ sf))). }
    unfold handleTextUnmarshaler.
    destruct (decide (kindOf (Type_ sf) = Ptr)).
    + destruct (if IsNil field then _ else _) as [f out].
      destruct out as [err|msg]; [|discriminate].
      destruct ro; [discriminate|].
      destruct (match Type_ sf with PtrTo t => textUnmarshaler t | _ => None end)
        as [m|].
      * destruct f as [| | | |[pointee|]| | |];
          try (intros [= _ <-]; right; by left).
        destruct (m pointee value) as [pointee' [e1|]]; [|discriminate].
        intros [= _ <-]. left. by exists e1.
      * intros [= _ <-]. right. by left.
    + destruct ro; [discriminate|].
      destruct (textUnmarshaler (Type_ sf)) as [m|].
      * destruct (m field value) as [f [e1|]]; [|discriminate].
        intros [= _ <-]. left. by exists e1.
      * intros [= _ <-]. right. by left.
Qed.

(** X7. A slice of strings takes the parts of the string as they are: for
    a field whose elements are of type string, with no entry of the
    registry for string, [set] stores the parts cut at the separator, and
    these, joined with the separator, are the string that was given. *)
Theorem string_slice_round_trip field sf value funcMap :
  kindOf (Type_ sf) = Slice ->
  Elem (Type_ sf) = Basic String_ ->
  funcMap !! Basic String_ = None ->
  let separator := Get (Tag sf) "envSeparator" in
  let separator := if String.eqb separator "" then "," else separator in
  set false field sf value funcMap
  = (VSlice (map VString (Split value separator)), Return None)
  /\ String.concat separator (Split value separator) = value.
Proof.
  intros Hk He Hf sep0 separator. split.
  - unfold set. destruct (decide (kindOf (Type_ sf) = Slice)); [|done].
    rewrite handleSlice_unfold. cbn zeta. fold sep0. fold separator.
    assert (Hb : baseElem sf = Basic String_).
    { unfold baseElem. rewrite He. by destruct (decide _). }
    rewrite Hb. cbn [textUnmarshaler]. unfold elemParser. rewrite Hf.
    cbn [kindOf defaultBuiltInParsers].
    rewrite (convertParts_ok _ (Basic String_) sf (Split value separator)
               (map VString (Split value separator)) []).
    + cbn [app]. by rewrite map_map.
    + by rewrite He.
    + induction (Split value separator); by constructor.
  - apply Split_join. apply separator_not_empty.
Qed.

(* ===================================================================== *)
(** *** Further properties: the built-in parsers of the integer kinds *)
(* ===================================================================== *)

(** The size the built-in parser of a signed kind, and of an unsigned
    kind, reads a number with. *)
Definition signedBits (k : Kind) : option Z :=
  match k with
  | Int8 => Some 8 | Int16 => Some 16 | Int32 => Some 32 | Int64 => Some 64
  | Int => Some 32
  | _ => None
  end.

Definition unsignedBits (k : Kind) : option Z :=
  match k with
  | Uint8 => Some 8 | Uint16 => Some 16 | Uint32 => Some 32
  | Uint64 => Some 64
  | Uint => Some 32
  | _ => None
  end.

Lemma pow2_pred b : 1 <= b -> 2 ^ b = 2 * 2 ^ (b - 1) /\ 1 <= 2 ^ (b - 1).
Proof.
  intros Hb. split.
  - replace b with (Z.succ (b - 1)) at 1 by lia. apply Z.pow_succ_r. lia.
  - change 1 with (2 ^ 0) at 1. apply Z.pow_le_mono_r; lia.
Qed.

Lemma wrapS_small b z :
  1 <= b -> - 2 ^ (b - 1) <= z < 2 ^ (b - 1) -> wrapS b z = z.
Proof.
  intros Hb Hz. unfold wrapS. destruct (pow2_pred b Hb) as [-> _].
  rewrite Z.mod_small; lia.
Qed.

Lemma wrapU_small b z : 0 <= z < 2 ^ b -> wrapU b z = z.
Proof. intros Hz. unfold wrapU. by apply Z.mod_small. Qed.

Lemma decimal_nonneg s n : decimal s = Some n -> 0 <= n.
Proof.
  unfold decimal. destruct (String.eqb s ""); [discriminate|].
  intros H. by apply decimalFrom_ge in H.
Qed.

(** [ParseInt] yields the number a decimal string writes when the number
    fits the size, and its opposite behind a minus sign. *)
Lemma ParseInt_decimal s b n :
  1 <= b <= 64 -> decimal s = Some n ->
  (n < 2 ^ (b - 1) -> ParseInt s 10 b = (n, None))
  /\ (n <= 2 ^ (b - 1) -> ParseInt ("-" +:+ s) 10 b = (- n, None)).
Proof.
  intros Hb Hdec.
  pose proof (decimal_nonneg s n Hdec) as Hn.
  pose proof (ParseUint_decimal s b n Hb Hdec) as HU.
  destruct (pow2_pred b ltac:(lia)) as [Hpow Hone].
  assert (Hhalf : 2 ^ (b - 1) <= 2 ^ 63) by (apply Z.pow_le_mono_r; lia).
  assert (Hcut : uint64 (2 ^ (b - 1)) = 2 ^ (b - 1)).
  { apply uint64_small. change (2 ^ 64) with (2 * 2 ^ 63). lia. }
  assert (Hin : n <= 2 ^ (b - 1) -> (n <=? 2 ^ b - 1) = true).
  { intros H. apply Z.leb_le. lia. }
  split; intros Hrange.
  - destruct (decimal_first_digit s n Hdec) as (c & rest & -> & Hd).
    destruct (isDigit_not_sign c Hd) as [Hplus Hminus].
    unfold ParseInt. rewrite Hplus, Hminus, HU, Hin by lia.
    rewrite Hcut. cbn [negb andb].
    destruct (Z.leb_spec (2 ^ (b - 1)) n); [lia|].
    cbn iota. rewrite (wrapS_small 64 n); [done | lia |].
    change (2 ^ (64 - 1)) with (2 ^ 63). lia.
  - change ("-" +:+ s) with (String "-" s). unfold ParseInt.
    change (Ascii.eqb "-" "+") with false.
    change (Ascii.eqb "-" "-") with true.
    cbv beta iota zeta. rewrite HU, Hin by lia.
    rewrite Hcut. cbn [negb andb].
    destruct (Z.ltb_spec (2 ^ (b - 1)) n); [lia|].
    cbn iota. f_equal.
    destruct (Z.eq_dec n (2 ^ 63)) as [-> | Hne]; [reflexivity|].
    change (2 ^ (64 - 1)) with (2 ^ 63) in *.
    rewrite (wrapS_small 64 n) by (change (2 ^ (64 - 1)) with (2 ^ 63); lia).
    apply wrapS_small; [lia|]. change (2 ^ (64 - 1)) with (2 ^ 63). lia.
Qed.

(** X8. A field of a signed integer kind, with no entry of the registry
    for its type, takes a decimal number that fits the size its parser
    reads with (8, 16, 32 or 64 bits; 32 bits for int): [set] stores the
    number, or its opposite when the string starts with a minus sign, and
    returns a nil error. *)
Theorem signed_field_takes_number field sf s n b funcMap :
  32 <= IntSize ->
  signedBits (kindOf (Type_ sf)) = Some b ->
  funcMap !! Type_ sf = None ->
  decimal s = Some n ->
  (n < 2 ^ (b - 1) ->
   set false field sf s funcMap = (VInt n, Return None))
  /\ (n <= 2 ^ (b - 1) ->
      set false field sf ("-" +:+ s) funcMap = (VInt (- n), Return None)).
Proof.
  intros Hsize Hbits Hc Hdec.
  pose proof (decimal_nonneg s n Hdec) as Hn.
  assert (Hint : 2 ^ (32 - 1) <= 2 ^ (IntSize - 1))
    by (apply Z.pow_le_mono_r; lia).
  assert (Hb : 1 <= b <= 64)
    by (destruct (kindOf (Type_ sf)); try discriminate;
        injection Hbits as <-; lia).
  destruct (ParseInt_decimal s b n Hb Hdec) as [Hpos Hneg].
  destruct (pow2_pred b ltac:(lia)) as [_ Hone].
  split; intros Hrange; unfold set;
    (destruct (decide (kindOf (Type_ sf) = Slice)) as [Hs|_];
     [rewrite Hs in Hbits; discriminate|]);
    rewrite Hc; unfold Convert;
    destruct (kindOf (Type_ sf)); try discriminate;
    injection Hbits as <-; cbn [defaultBuiltInParsers];
    rewrite ?(Hpos Hrange), ?(Hneg Hrange); unfold Set_;
    rewrite ?(wrapS_small 8 n), ?(wrapS_small 16 n), ?(wrapS_small 32 n),
      ?(wrapS_small 64 n), ?(wrapS_small IntSize n),
      ?(wrapS_small 8 (- n)), ?(wrapS_small 16 (- n)),
      ?(wrapS_small 32 (- n)), ?(wrapS_small 64 (- n)),
      ?(wrapS_small IntSize (- n));
    try reflexivity; try lia.
Qed.

(** [ParseUint] yields the number a decimal string writes when the number
    fits the size. *)
Lemma ParseUint_decimal_fits s b n :
  1 <= b <= 64 -> decimal s = Some n -> n < 2 ^ b ->
  ParseUint s 10 b = (n, None).
Proof.
  intros Hb Hdec Hn. rewrite (ParseUint_decimal s b n Hb Hdec).
  destruct (Z.leb_spec n (2 ^ b - 1)); [done | lia].
Qed.

(** X9. A field of an unsigned integer kind, with no entry of the registry
    for its type, takes a decimal number that fits the size its parser
    reads with (8, 16, 32 or 64 bits; 32 bits for uint): [set] stores the
    number and returns a nil error. *)
Theorem unsigned_field_takes_number field sf s n b funcMap :
  32 <= IntSize ->
  unsignedBits (kindOf (Type_ sf)) = Some b ->
  funcMap !! Type_ sf = None ->
  decimal s = Some n ->
  n < 2 ^ b ->
  set false field sf s funcMap = (VInt n, Return None).
Proof.
  intros Hsize Hbits Hc Hdec Hrange.
  pose proof (decimal_nonneg s n Hdec) as Hn.
  assert (Hint : 2 ^ 32 <= 2 ^ IntSize) by (apply Z.pow_le_mono_r; lia).
  assert (Hb : 1 <= b <= 64)
    by (destruct (kindOf (Type_ sf)); try discriminate;
        injection Hbits as <-; lia).
  pose proof (ParseUint_decimal_fits s b n Hb Hdec Hrange) as HU.
  unfold set.
  destruct (decide (kindOf (Type_ sf) = Slice)) as [Hs|_];
    [rewrite Hs in Hbits; discriminate|].
  rewrite Hc. unfold Convert.
  destruct (kindOf (Type_ sf)); try discriminate;
    injection Hbits as <-; cbn [defaultBuiltInParsers];
    rewrite HU; unfold Set_;
    rewrite ?(wrapU_small 8 n), ?(wrapU_small 16 n), ?(wrapU_small 32 n),
      ?(wrapU_small 64 n), ?(wrapU_small IntSize n);
    try reflexivity; try lia.
Qed.

(* ===================================================================== *)
(** *** Further properties: the walker *)
(* ===================================================================== *)

(** Induction over a value together with the values inside it. *)
Section Value_ind.
Variable P : Value -> Prop.
Hypothesis HBool : forall b, P (VBool b).
Hypothesis HInt : forall n, P (VInt n).
Hypothesis HFloat : forall bits, P (VFloat bits).
Hypothesis HString : forall s, P (VString s).
Hypothesis HNil : P (VPtr None).
Hypothesis HPtr : forall pointee, P pointee -> P (VPtr (Some pointee)).
Hypothesis HSlice : forall elems, Forall P elems -> P (VSlice elems).
Hypothesis HStruct : forall fields, Forall P fields -> P (VStruct fields).
Hypothesis HZero : forall k, P (VZero k).

End Value_ind.










(** X12. The walk stops at the first field that does not end with a nil
    error and returns what that field returned: the fields before it keep
    what was written into them, the fields after it are not touched, and
    the calls to [OnEnvVarSet] are those made up to that field. *)
Theorem walk_stops_at_first_failure t funcMap pre sf post vpre v vpost vpre'
  log v' log' out :
  kindOf t = Ptr -> kindOf (Elem t) = Struct ->
  fieldsOf (Elem t) = pre ++ sf :: post ->
  length vpre = length pre ->
  doParse false (StructOf pre) (VStruct vpre) (mergeParsers funcMap)
    = (VStruct vpre', log, Return None) ->
  doParseField doParse false (mergeParsers funcMap) sf v = (v', log', out) ->
  out <> Return None ->
  ParseWithFuncs (t, VPtr (Some (VStruct (vpre ++ v :: vpost)))) funcMap
  = (VPtr (Some (VStruct (vpre' ++ v' :: vpost))), log ++ log', out).
Proof.
  intros Hp Hs Hf Hlen Hpre Hb Hout.
  rewrite ParseWithFuncs_struct by done.
  by rewrite (doParse_first_failure false (Elem t) (mergeParsers funcMap)
                pre sf post vpre v vpost vpre' log v' log' out).
Qed.

Lemma get_untagged sf :
  Tag sf = [] -> LookupEnv "" = None -> get sf = ("", None).
Proof.
  intros Htag Hk. unfold get. rewrite Htag. cbn [Get].
  change (parseKeyForOption "") with ("", @nil string).
  unfold getOr. by rewrite Hk.
Qed.

Lemma fieldsLoop_skips body fs vs :
  Forall2 (fun sf v => body sf v = (v, [], Return None)) fs vs ->
  fieldsLoop body fs vs = (vs, [], Return None).
Proof.
  induction 1 as [|sf v fs vs Hb _ IH]; [done|].
  cbn [fieldsLoop]. by rewrite Hb, IH.
Qed.

(** X13. A struct whose fields carry no annotation, none of them a struct
    or a pointer that is not nil, is left as it is: [ParseWithFuncs]
    returns a nil error, writes no field and calls [OnEnvVarSet] for none,
    in an environment that has no variable with an empty name. *)
Theorem untagged_struct_unchanged t fields funcMap :
  kindOf t = Ptr -> kindOf (Elem t) = Struct ->
  LookupEnv "" = None ->
  Forall2 (fun sf v => Tag sf = []
                       /\ kindOf (Type_ sf) <> Struct
                       /\ resolved false sf v)
    (fieldsOf (Elem t)) fields ->
  ParseWithFuncs (t, VPtr (Some (VStruct fields))) funcMap
  = (VPtr (Some (VStruct fields)), [], Return None).
Proof.
  intros Hp Hs Hk Hfields.
  rewrite ParseWithFuncs_struct, doParse_struct by done.
  rewrite fieldsLoop_skips; [done|].
  eapply Forall2_impl; [|exact Hfields].
  intros sf v (Htag & Hkind & Hres).
  rewrite doParseField_resolved by done. cbn zeta.
  rewrite get_untagged by done. cbn [String.eqb].
  destruct (decide (Struct = kindOf (Type_ sf))); [congruence | done].
Qed.

Lemma mergeParsers_empty : mergeParsers ∅ = defaultCustomParsers.
Proof. unfold mergeParsers. apply map_fold_empty. Qed.

(** X14. The parsers of the caller do not reach a struct behind a pointer:
    a pointer field that is not nil and can be set is walked with the
    baseline registry alone, whatever registry the enclosing walk runs
    with. *)
Theorem pointer_struct_walked_with_baseline funcMap sf p :
  kindOf (Type_ sf) = Ptr -> PkgPath sf = "" ->
  kindOf (Elem (Type_ sf)) = Struct ->
  doParseField doParse false funcMap sf (VPtr (Some p)) =
  let '(p', log, out) :=
    doParse false (Elem (Type_ sf)) p defaultCustomParsers in
  (VPtr (Some p'), log, out).
Proof.
  intros Hk Hpkg Hs. rewrite doParseField_pointer by done.
  unfold Parse. rewrite ParseWithFuncs_struct by done.
  by rewrite mergeParsers_empty.
Qed.

(** X15. With no converter for it, a field that resolves to a string is
    refused with the no-parser error and keeps its value: a slice whose
    element type has neither [UnmarshalText] nor a parser, and a field
    that is neither a slice nor a pointer and has no entry of the
    registry, no built-in parser for its kind and no [UnmarshalText] (a
    struct with a key of its own, for one). *)
Theorem no_converter_no_parser_error field sf value funcMap :
  (kindOf (Type_ sf) = Slice
   /\ textUnmarshaler (baseElem sf) = None
   /\ elemParser funcMap (baseElem sf) = None)
  \/ (kindOf (Type_ sf) <> Slice /\ kindOf (Type_ sf) <> Ptr
      /\ funcMap !! Type_ sf = None
      /\ defaultBuiltInParsers (kindOf (Type_ sf)) = None
      /\ textUnmarshaler (Type_ sf) = None) ->
  set false field sf value funcMap = (field, Return (Some (ErrNoParser sf))).
Proof.
  intros [(Hk & Hm & Hp) | (Hs & Hptr & Hc & Hb & Hm)]; unfold set.
  - destruct (decide (kindOf (Type_ sf) = Slice)); [|done].
    rewrite handleSlice_unfold. cbn zeta. by rewrite Hm, Hp.
  - destruct (decide (kindOf (Type_ sf) = Slice)); [done|].
    rewrite Hc, Hb. unfold handleTextUnmarshaler.
    destruct (decide (kindOf (Type_ sf) = Ptr)); [done|]. by rewrite Hm.
Qed.

(** X16. On the converter paths (a slice field, an entry of the registry
    for the type, a built-in parser for the kind) the value [set] stores
    does not depend on what the field held: when [set] ends well on a
    field, it ends well with the same stored value whatever the field
    holds, so that binding the same string again changes nothing. *)
Theorem set_result_independent_of_field ro field other sf value funcMap field' :
  kindOf (Type_ sf) = Slice
  \/ funcMap !! Type_ sf <> None
  \/ defaultBuiltInParsers (kindOf (Type_ sf)) <> None ->
  set ro field sf value funcMap = (field', Return None) ->
  set ro other sf value funcMap = (field', Return None)
  /\ set ro field' sf value funcMap = (field', Return None).
Proof.
  intros Hpath Hset.
  assert (Hany : forall f, set ro f sf value funcMap = (field', Return None));
    [|by split].
  intros f. revert Hset. unfold set.
  destruct (decide (kindOf (Type_ sf) = Slice)).
  - rewrite !handleSlice_unfold. cbn zeta.
    destruct (textUnmarshaler (baseElem sf)).
    + unfold parseTextUnmarshalers.
      destruct (unmarshalParts _ _ _) as [[elems [err|]]|]; try discriminate.
      unfold Set_. by destruct ro.
    + destruct (elemParser funcMap (baseElem sf)) as [p|]; [|discriminate].
      destruct (convertParts _ _ _ _ _) as [res [err|]]; [discriminate|].
      unfold Set_. by destruct ro.
  - destruct (funcMap !! Type_ sf) as [p|].
    { destruct (p value) as [val [e|]]; [discriminate|].
      unfold Set_. by destruct ro. }
    destruct (defaultBuiltInParsers (kindOf (Type_ sf))) as [p|].
    { destruct (p value) as [val [e|]]; [discriminate|].
      unfold Set_. by destruct ro. }
    by destruct Hpath as [? | [? | ?]].
Qed.

End Env.

(* ===================================================================== *)
(** ** The binder at work in one process *)
(* ===================================================================== *)

(** An environment, a type with [UnmarshalText] and the baseline parsers,
    to run the binder on structs. *)
Definition environ1 : gmap string string :=
  <["HOME" := "/root"]> (<["DIR" := "${HOME}/cfg"]> (<["KEY" := "1"]> ∅)).

Definition ParseFloat1 (s : string) (bitSize : Z) : Z * option error :=
  (0, Some (NumError "ParseFloat" s ErrSyntax)).

(** [type Level int], with a method [UnmarshalText] on [*Level] that knows
    two names. *)
Definition Level : type := Named "Level" (Basic Int).

Definition Level_UnmarshalText (l : Value) (text : string)
  : Value * option error :=
  if String.eqb text "debug" then (VInt 0, None)
  else if String.eqb text "info" then (VInt 1, None)
  else (l, Some (ErrText "unknown level")).

Definition UnmarshalText1 (t : type) : option Unmarshaler :=
  if decide (t = Level) then Some Level_UnmarshalText else None.

Definition URLType1 : type := Named "url.URL" (StructOf []).
Definition DurationType1 : type := Named "time.Duration" (Basic Int64).
Definition URLFunc1 (v : string) : Value * option error := (VStruct [], None).
Definition DurationFunc1 (v : string) : Value * option error :=
  let '(i, err) := ParseInt v 10 64 in (VInt i, err).

Definition get1 : StructField -> string * option error := get environ1.

Definition set1 : bool -> Value -> StructField -> string ->
                  gmap type ParserFunc -> Value * outcome :=
  set 64 ParseFloat1 (fun bits => bits) UnmarshalText1.

Definition ParseWithFuncs1 : type * Value -> gmap type ParserFunc -> walked :=
  ParseWithFuncs environ1 64 ParseFloat1 (fun bits => bits) UnmarshalText1
    URLType1 DurationType1 URLFunc1 DurationFunc1 true.

Definition Parse1 : type * Value -> walked :=
  Parse environ1 64 ParseFloat1 (fun bits => bits) UnmarshalText1
    URLType1 DurationType1 URLFunc1 DurationFunc1 true.

(** Fields of configuration structs. *)
Definition PortField : StructField :=
  mkStructField "Port" "" (Basic Int) [("env", "PORT"); ("envDefault", "8080")].

Definition DirField : StructField :=
  mkStructField "Dir" "" (Basic String_)
    [("env", "DIR,required"); ("envExpand", "true")].

Definition TokenField : StructField :=
  mkStructField "Token" "" (Basic String_)
    [("env", "TOKEN,required"); ("envDefault", "secret")].

Definition NameField : StructField :=
  mkStructField "Name" "" (Basic String_) [("env", "NAME")].

Definition SubField : StructField :=
  mkStructField "Sub" "" (PtrTo (StructOf [NameField]))
    [("env", "SUB,required")].

Definition CountField : StructField :=
  mkStructField "Count" "" (PtrTo (Basic Int)) [].

Definition NumbersField : StructField :=
  mkStructField "Numbers" "" (SliceOf (Basic Int32)) [("env", "NUMBERS")].

Definition PortsField : StructField :=
  mkStructField "Ports" "" (SliceOf (PtrTo (Basic Int))) [("env", "PORTS")].

Definition LevelField : StructField :=
  mkStructField "Level" "" (PtrTo Level) [("env", "LEVEL")].

Definition KeyField : StructField :=
  mkStructField "Key" "" (Basic String_) [("env", "KEY,foo,required")].

(** The same environment with the key of [DirField] holding a reference to
    another variable: with expansion alone the reference is replaced. *)
Example expansion_alone :
  get1 (mkStructField "Dir" "" (Basic String_)
          [("env", "DIR"); ("envExpand", "true")])
  = ("/root/cfg", None).
Proof. vm_compute. reflexivity. Qed.

(** Witness of C9: [DirField] is required and expanded, and [get] returns
    the value of DIR with its reference left in. *)
Lemma required_discards_expansion_witness :
  LookupEnv environ1 "DIR" = Some "${HOME}/cfg"
  /\ fst (get1 DirField) = "${HOME}/cfg"
  /\ (Forall supported ["required"] -> get1 DirField = ("${HOME}/cfg", None)).
Proof.
  split; [reflexivity|].
  apply (required_discards_expansion environ1 DirField "DIR" ["required"]
           "${HOME}/cfg").
  - reflexivity.
  - reflexivity.
  - left. reflexivity.
  - reflexivity.
Defined.

(** C6: an option that [get] does not know, followed by "required" with
    the key present.  The error raised for "foo" is overwritten by the nil
    error of "required", and [get] returns the value with no error. *)
Theorem unsupported_option_error_lost :
  LookupEnv environ1 "KEY" = Some "1"
  /\ parseKeyForOption (Get (Tag KeyField) "env") = ("KEY", ["foo"; "required"])
  /\ get1 KeyField = ("1", None).
Proof. vm_compute. repeat split; reflexivity. Qed.

(** Counterexample to C1 as stated: [SubField] carries "required", its key
    SUB is absent, and the field is a pointer that is not nil; the walk
    hands the pointee to [Parse] without resolving the annotation, and
    ends with a nil error. *)
Lemma required_on_set_pointer_not_checked :
  In "required" (snd (parseKeyForOption (Get (Tag SubField) "env")))
  /\ LookupEnv environ1 (fst (parseKeyForOption (Get (Tag SubField) "env")))
     = None
  /\ Parse1 (PtrTo (StructOf [SubField]),
             VPtr (Some (VStruct [VPtr (Some (VStruct [VString ""]))])))
     = (VPtr (Some (VStruct [VPtr (Some (VStruct [VString ""]))])), [],
        Return None).
Proof. vm_compute. split; [by left | split; reflexivity]. Qed.

(** Witness of C1 as amended: [TokenField] is required, TOKEN is absent,
    and the field before it ends well; the default "secret" is not used. *)
Lemma required_absent_fails_witness :
  LookupEnv environ1 "TOKEN" = None
  /\ ParseWithFuncs1
       (PtrTo (StructOf [PortField; TokenField; NameField]),
        VPtr (Some (VStruct [VInt 0; VString "old"; VString ""]))) ∅
     = (VPtr (Some (VStruct [VInt 8080; VString "old"; VString ""])),
        [(PortField, "8080")],
        Return (Some (ErrRequiredNotSet "TOKEN"))).
Proof.
  split; [reflexivity|].
  apply (required_absent_fails environ1 64 ParseFloat1 (fun bits => bits)
           UnmarshalText1 URLType1 DurationType1 URLFunc1 DurationFunc1 true
           (PtrTo (StructOf [PortField; TokenField; NameField])) ∅
           [PortField] TokenField [NameField]
           [VInt 0] (VString "old") [VString ""] [VInt 8080]
           [(PortField, "8080")] "TOKEN" ["required"]).
  - reflexivity.
  - reflexivity.
  - reflexivity.
  - reflexivity.
  - vm_compute. reflexivity.
  - left. discriminate.
  - reflexivity.
  - apply Forall_cons; [right; reflexivity | apply Forall_nil].
  - left. reflexivity.
  - reflexivity.
Defined.

(** Counterexample to C8 as stated: the struct holds a pointer to an int
    that is not nil, and [Parse] fails with the error of the required field
    declared before it, not with [ErrNotAStructPtr]. *)
Lemma earlier_field_error_comes_first :
  kindOf (Type_ CountField) = Ptr
  /\ kindOf (Elem (Type_ CountField)) <> Struct
  /\ PkgPath CountField = ""
  /\ Parse1 (PtrTo (StructOf [TokenField; CountField]),
             VPtr (Some (VStruct [VString ""; VPtr (Some (VInt 3))])))
     = (VPtr (Some (VStruct [VString ""; VPtr (Some (VInt 3))])), [],
        Return (Some (ErrRequiredNotSet "TOKEN"))).
Proof. vm_compute. repeat split; (discriminate || reflexivity). Qed.

(** Witness of C8 as amended: the pointer to an int comes after a field
    that ends well. *)
Lemma pointer_to_non_struct_fails_witness :
  ParseWithFuncs1
    (PtrTo (StructOf [PortField; CountField; NameField]),
     VPtr (Some (VStruct [VInt 0; VPtr (Some (VInt 3)); VString ""]))) ∅
  = (VPtr (Some (VStruct [VInt 8080; VPtr (Some (VInt 3)); VString ""])),
     [(PortField, "8080")],
     Return (Some ErrNotAStructPtr)).
Proof.
  apply (pointer_to_non_struct_fails environ1 64 ParseFloat1 (fun bits => bits)
           UnmarshalText1 URLType1 DurationType1 URLFunc1 DurationFunc1 true
           (PtrTo (StructOf [PortField; CountField; NameField])) ∅
           [PortField] CountField [NameField]
           [VInt 0] (VInt 3) [VString ""] [VInt 8080] [(PortField, "8080")]).
  - reflexivity.
  - reflexivity.
  - reflexivity.
  - reflexivity.
  - vm_compute. reflexivity.
  - reflexivity.
  - reflexivity.
  - discriminate.
Defined.


(** A struct field with no key is walked, and the fields inside it are
    bound from their own keys. *)
Example nested_struct_walked :
  Parse1 (PtrTo (StructOf [mkStructField "Server" "" (StructOf [PortField]) []]),
          VPtr (Some (VStruct [VStruct [VInt 0]])))
  = (VPtr (Some (VStruct [VStruct [VInt 8080]])), [(PortField, "8080")],
     Return None).
Proof. vm_compute. reflexivity. Qed.

(** A registry with an entry for [int]: every port becomes 7. *)
Definition portParsers : gmap type ParserFunc :=
  <[Basic Int := fun _ : string => (VInt 7, @None error)]> ∅.

(** Witness of C2: the entry for [int] shadows the built-in parser of kind
    int, which would yield 8080. *)
Lemma set_converter_precedence_witness :
  set1 false (VInt 0) PortField "8080" portParsers = (VInt 7, Return None)
  /\ set1 false (VInt 0) PortField "8080" ∅ = (VInt 8080, Return None).
Proof.
  destruct (set_converter_precedence 64 ParseFloat1 (fun bits => bits)
              UnmarshalText1 false (VInt 0) PortField "8080" portParsers)
    as (Hcustom & _ & _); [discriminate|].
  destruct (set_converter_precedence 64 ParseFloat1 (fun bits => bits)
              UnmarshalText1 false (VInt 0) PortField "8080" ∅)
    as (_ & Hbuiltin & _); [discriminate|].
  split.
  - unfold set1. rewrite (Hcustom (fun _ => (VInt 7, None))); reflexivity.
  - unfold set1.
    rewrite (Hbuiltin (fun v => let '(i, err) := ParseInt v 10 32 in
                                (VInt (wrapS 64 i), err)));
      reflexivity.
Defined.

(** Witness of C4: "1,2,3" with no separator declared, into a slice of
    32-bit integers. *)
Lemma slice_parts_in_order_witness :
  Split "1,2,3" "," = ["1"; "2"; "3"]
  /\ set1 false (VSlice [VInt 9]) NumbersField "1,2,3" ∅
     = (VSlice [VInt 1; VInt 2; VInt 3], Return None).
Proof.
  split; [reflexivity|].
  destruct (slice_parts_in_order 64 ParseFloat1 (fun bits => bits)
              UnmarshalText1 false (VSlice [VInt 9]) NumbersField "1,2,3" ∅)
    as [_ Hset]; [reflexivity|].
  apply Hset.
  - change (Forall2 (sliceElem 64 ParseFloat1 (fun bits => bits) UnmarshalText1
                       NumbersField ∅)
              ["1"; "2"; "3"] [VInt 1; VInt 2; VInt 3]).
    repeat apply Forall2_cons; try apply Forall2_nil;
      (exists (fun v => let '(i, err) := ParseInt v 10 32 in
                        (VInt (wrapS 32 i), err));
       eexists; repeat split; reflexivity).
  - reflexivity.
  - right. discriminate.
Defined.

(** Counterexample to C5 as stated: a slice of pointers to int and a
    string whose first part is not a number; [set] fails with the parse
    error of that part, not with the error that refuses such slices. *)
Lemma pointer_slice_parse_error_first :
  kindOf (Elem (Type_ PortsField)) = Ptr
  /\ set1 false (VSlice []) PortsField "x,2" ∅
     = (VSlice [],
        Return (Some (parseError PortsField (NumError "ParseInt" "x" ErrSyntax))))
  /\ parseError PortsField (NumError "ParseInt" "x" ErrSyntax)
     <> ErrPointSlices (Name PortsField) (Type_ PortsField).
Proof. vm_compute. repeat split; (discriminate || reflexivity). Qed.

(** Witness of C5 as amended: the first part converts, and the slice of
    pointers is refused. *)
Lemma pointer_slice_rejected_witness :
  set1 false (VSlice []) PortsField "80,443" ∅
  = (VSlice [],
     Return (Some (ErrPointSlices "Ports" (SliceOf (PtrTo (Basic Int)))))).
Proof.
  unfold set1.
  rewrite (pointer_slice_rejected 64 ParseFloat1 (fun bits => bits)
             UnmarshalText1 false (VSlice []) PortsField "80,443" ∅
             (fun v => let '(i, err) := ParseInt v 10 32 in
                       (VInt (wrapS 64 i), err)));
    reflexivity.
Defined.

(** Counterexample to C7 as stated: a nil pointer to [Level] and a text
    that [UnmarshalText] refuses; the method returns an error, and the
    field is no longer nil. *)
Lemma failed_unmarshal_leaves_pointer_set :
  Level_UnmarshalText (VInt 0) "loud" = (VInt 0, Some (ErrText "unknown level"))
  /\ set1 false (VPtr None) LevelField "loud" ∅
     = (VPtr (Some (VInt 0)),
        Return (Some (parseError LevelField (ErrText "unknown level")))).
Proof. vm_compute. split; reflexivity. Qed.

(** Witness of C7 as amended: a port that is not a number, on the path of
    the built-in parser; the field keeps its value. *)
Lemma failed_set_field_state_witness :
  snd (set1 false (VInt 5) PortField "http" ∅)
  = Return (Some (parseError PortField (NumError "ParseInt" "http" ErrSyntax)))
  /\ fst (set1 false (VInt 5) PortField "http" ∅) = VInt 5.
Proof.
  split; [reflexivity|].
  destruct (failed_set_field_state 64 ParseFloat1 (fun bits => bits)
              UnmarshalText1 false (VInt 5) PortField "http" ∅
              (fst (set1 false (VInt 5) PortField "http" ∅))
              (snd (set1 false (VInt 5) PortField "http" ∅)))
    as [Hkeep _].
  - reflexivity.
  - discriminate.
  - apply Hkeep. right. right. discriminate.
Defined.

(** Witness of C10: 2^31 into a field of kind int, with [int] 64 bits
    wide. *)
Lemma int_uint_limited_to_32_bits_witness :
  decimal "2147483648" = Some 2147483648
  /\ set1 false (VInt 0) PortField "2147483648" ∅
     = (VInt 0,
        Return (Some (parseError PortField
                        (NumError "ParseInt" "2147483648" ErrRange)))).
Proof.
  split; [reflexivity|].
  destruct (int_uint_limited_to_32_bits 64 ParseFloat1 (fun bits => bits)
              UnmarshalText1 false (VInt 0) PortField "2147483648" 2147483648 ∅)
    as (Hint & _ & _ & _).
  - reflexivity.
  - reflexivity.
  - apply Hint; [reflexivity | discriminate].
Defined.

(* ===================================================================== *)
(** ** The further properties at work *)
(* ===================================================================== *)

Definition doParse1 : bool -> type -> Value -> gmap type ParserFunc -> walked :=
  doParse environ1 64 ParseFloat1 (fun bits => bits) UnmarshalText1
    URLType1 DurationType1 URLFunc1 DurationFunc1 true.

Definition doParseField1 : bool -> gmap type ParserFunc -> StructField ->
                           Value -> walked :=
  doParseField environ1 64 ParseFloat1 (fun bits => bits) UnmarshalText1
    URLType1 DurationType1 URLFunc1 DurationFunc1 true doParse1.

Definition mergeParsers1 : gmap type ParserFunc -> gmap type ParserFunc :=
  mergeParsers URLType1 DurationType1 URLFunc1 DurationFunc1.

Definition HostsField : StructField :=
  mkStructField "Hosts" "" (SliceOf (Basic String_))
    [("env", "HOSTS"); ("envSeparator", ":")].

Definition TinyField : StructField :=
  mkStructField "Tiny" "" (Basic Int8) [("env", "TINY")].

Definition ByteField : StructField :=
  mkStructField "Byte" "" (Named "Octet" (Basic Uint8)) [("env", "BYTE")].

Definition RetriesField : StructField :=
  mkStructField "Retries" "" (Basic Int)
    [("env", "RETRIES"); ("envDefault", "many")].


Definition ServerField : StructField :=
  mkStructField "Server" "" (StructOf [PortField]) [("env", "KEY")].

Definition BackupField : StructField :=
  mkStructField "Backup" "" (PtrTo (StructOf [PortField])) [].

Definition PlainField : StructField := mkStructField "Plain" "" (Basic Int) [].

Definition SpareField : StructField :=
  mkStructField "Spare" "" (PtrTo (Basic Int)) [].

(** Witness of X1: the tag of [KeyField]. *)
Lemma parseKeyForOption_join_witness :
  parseKeyForOption "KEY,foo,required" = ("KEY", ["foo"; "required"])
  /\ String.concat "," ["KEY"; "foo"; "required"] = "KEY,foo,required"
  /\ Forall (fun part => hasByte "," part = false) ["KEY"; "foo"; "required"].
Proof.
  split; [reflexivity|].
  apply (parseKeyForOption_join "KEY,foo,required" "KEY" ["foo"; "required"]).
  reflexivity.
Defined.

(** Witness of X2: PORT is absent and the default of [PortField] is
    taken. *)
Lemma get_environment_before_default_witness :
  get1 PortField = ("8080", None).
Proof.
  unfold get1.
  rewrite (get_environment_before_default environ1 PortField "PORT" []).
  - reflexivity.
  - reflexivity.
  - apply Forall_nil.
  - discriminate.
Defined.

(** Witness of X3: the error of [TokenField] is the missing-required
    one. *)
Lemma get_error_cases_witness :
  (ErrRequiredNotSet "TOKEN" = ErrRequiredNotSet "TOKEN" /\ "" = ""
   /\ LookupEnv environ1 "TOKEN" = None /\ In "required" ["required"])
  \/ (exists opt, In opt ["required"] /\ opt <> "" /\ opt <> "required"
                  /\ ErrRequiredNotSet "TOKEN" = ErrTagOption opt).
Proof.
  apply (get_error_cases environ1 TokenField "TOKEN" ["required"] ""
           (ErrRequiredNotSet "TOKEN")); reflexivity.
Defined.

(** Witness of X4: the registry of ports has no entry for durations, and
    the baseline one stays. *)
Lemma caller_parsers_over_baseline_witness :
  mergeParsers1 portParsers !! DurationType1 = Some DurationFunc1
  /\ (exists parserFunc, mergeParsers1 portParsers !! Basic Int = Some parserFunc
                         /\ parserFunc "8080" = (VInt 7, None)).
Proof.
  destruct (caller_parsers_over_baseline URLType1 DurationType1 URLFunc1
              DurationFunc1 portParsers DurationType1) as (_ & _ & Hd & _).
  destruct (caller_parsers_over_baseline URLType1 DurationType1 URLFunc1
              DurationFunc1 portParsers (Basic Int)) as (Hc & _).
  split.
  - apply Hd. reflexivity.
  - exists (fun _ => (VInt 7, None)). split; [|reflexivity].
    apply Hc. reflexivity.
Defined.

(** Witness of X5: an int is not a pointer to a struct. *)
Lemma root_must_be_struct_pointer_witness :
  ParseWithFuncs1 (Basic Int, VInt 3) portParsers
  = (VInt 3, [], Return (Some ErrNotAStructPtr)).
Proof.
  unfold ParseWithFuncs1. apply root_must_be_struct_pointer.
  left. discriminate.
Defined.

(** Witness of X6: the error of a port that is not a number. *)
Lemma set_errors_name_field_witness :
  (exists e', parseError PortField (NumError "ParseInt" "http" ErrSyntax)
              = parseError PortField e')
  \/ parseError PortField (NumError "ParseInt" "http" ErrSyntax)
     = ErrNoParser PortField
  \/ parseError PortField (NumError "ParseInt" "http" ErrSyntax)
     = ErrPointSlices (Name PortField) (Type_ PortField).
Proof.
  apply (set_errors_name_field 64 ParseFloat1 (fun bits => bits)
           UnmarshalText1 false (VInt 5) PortField "http" ∅ (VInt 5)).
  reflexivity.
Defined.

(** Witness of X7: hosts cut at ":", an empty one among them. *)
Lemma string_slice_round_trip_witness :
  set1 false (VSlice []) HostsField "a:b::c" ∅
  = (VSlice [VString "a"; VString "b"; VString ""; VString "c"], Return None)
  /\ String.concat ":" ["a"; "b"; ""; "c"] = "a:b::c".
Proof.
  apply (string_slice_round_trip 64 ParseFloat1 (fun bits => bits)
           UnmarshalText1 (VSlice []) HostsField "a:b::c" ∅); reflexivity.
Defined.

(** Witness of X8: the least number of 8 bits. *)
Lemma signed_field_takes_number_witness :
  decimal "128" = Some 128
  /\ set1 false (VInt 0) TinyField "-128" ∅ = (VInt (-128), Return None).
Proof.
  split; [reflexivity|].
  destruct (signed_field_takes_number 64 ParseFloat1 (fun bits => bits)
              UnmarshalText1 (VInt 0) TinyField "128" 128 8 ∅) as [_ Hneg].
  - lia.
  - reflexivity.
  - reflexivity.
  - reflexivity.
  - apply Hneg. reflexivity.
Defined.

(** Witness of X9: the greatest number of 8 bits, into a defined type of
    kind uint8. *)
Lemma unsigned_field_takes_number_witness :
  set1 false (VInt 0) ByteField "255" ∅ = (VInt 255, Return None).
Proof.
  apply (unsigned_field_takes_number 64 ParseFloat1 (fun bits => bits)
           UnmarshalText1 (VInt 0) ByteField "255" 255 8 ∅).
  - lia.
  - reflexivity.
  - reflexivity.
  - reflexivity.
  - reflexivity.
Defined.


(** Witness of X12: the port is written, the retries fail, the name is not
    looked at. *)
Lemma walk_stops_at_first_failure_witness :
  ParseWithFuncs1
    (PtrTo (StructOf [PortField; RetriesField; TokenField]),
     VPtr (Some (VStruct [VInt 0; VInt 3; VString "old"]))) ∅
  = (VPtr (Some (VStruct [VInt 8080; VInt 3; VString "old"])),
     [(PortField, "8080")],
     Return (Some (parseError RetriesField
                     (NumError "ParseInt" "many" ErrSyntax)))).
Proof.
  apply (walk_stops_at_first_failure environ1 64 ParseFloat1
           (fun bits => bits) UnmarshalText1 URLType1 DurationType1 URLFunc1
           DurationFunc1 true
           (PtrTo (StructOf [PortField; RetriesField; TokenField])) ∅
           [PortField] RetriesField [TokenField]
           [VInt 0] (VInt 3) [VString "old"] [VInt 8080]
           [(PortField, "8080")] (VInt 3) []).
  - reflexivity.
  - reflexivity.
  - reflexivity.
  - reflexivity.
  - vm_compute. reflexivity.
  - vm_compute. reflexivity.
  - discriminate.
Defined.

(** Witness of X13: a struct with no annotation, a nil pointer in it. *)
Lemma untagged_struct_unchanged_witness :
  ParseWithFuncs1
    (PtrTo (StructOf [PlainField; SpareField]),
     VPtr (Some (VStruct [VInt 4; VPtr None]))) portParsers
  = (VPtr (Some (VStruct [VInt 4; VPtr None])), [], Return None).
Proof.
  unfold ParseWithFuncs1. apply untagged_struct_unchanged.
  - reflexivity.
  - reflexivity.
  - reflexivity.
  - apply Forall2_cons; [|apply Forall2_cons; [|apply Forall2_nil]].
    + split; [reflexivity|]. split; [discriminate|]. left. discriminate.
    + split; [reflexivity|]. split; [discriminate|]. right. left. reflexivity.
Defined.

(** Witness of X14: the enclosing walk turns every int into 7, and the
    port behind the pointer is read by the built-in parser all the same. *)
Lemma pointer_struct_walked_with_baseline_witness :
  doParseField1 false portParsers BackupField (VPtr (Some (VStruct [VInt 0])))
  = (VPtr (Some (VStruct [VInt 8080])), [(PortField, "8080")], Return None).
Proof.
  unfold doParseField1, doParse1.
  rewrite pointer_struct_walked_with_baseline; reflexivity.
Defined.

(** Witness of X15: a struct field with a key of its own, KEY being set. *)
Lemma no_converter_no_parser_error_witness :
  get1 ServerField = ("1", None)
  /\ set1 false (VStruct [VInt 0]) ServerField "1" ∅
     = (VStruct [VInt 0], Return (Some (ErrNoParser ServerField))).
Proof.
  split; [reflexivity|].
  apply (no_converter_no_parser_error 64 ParseFloat1 (fun bits => bits)
           UnmarshalText1 (VStruct [VInt 0]) ServerField "1" ∅).
  right. repeat split; (discriminate || reflexivity).
Defined.

(** Witness of X16: the numbers replace whatever the slice held. *)
Lemma set_result_independent_of_field_witness :
  set1 false (VSlice []) NumbersField "1,2,3" ∅
  = (VSlice [VInt 1; VInt 2; VInt 3], Return None)
  /\ set1 false (VSlice [VInt 1; VInt 2; VInt 3]) NumbersField "1,2,3" ∅
     = (VSlice [VInt 1; VInt 2; VInt 3], Return None).
Proof.
  apply (set_result_independent_of_field 64 ParseFloat1 (fun bits => bits)
           UnmarshalText1 false (VSlice [VInt 9]) (VSlice []) NumbersField
           "1,2,3" ∅ (VSlice [VInt 1; VInt 2; VInt 3])).
  - left. reflexivity.
  - reflexivity.
Defined.
